(** * The libkernel test suite page: its test methods and its test queue

    A shallow embedding of the two source files of the page:
    - the test methods ([TestModuleHasSeed], [TestResponseUpdates], ...,
      and the registry [testCardValues]), each a function that talks to the
      kernel through libkernel and returns a promise;
    - [App.js]: the [TestCard] component, whose effect starts a test when the
      shared [queueTurn] equals the card's [queueSpot], and the [App]
      component that owns [queueTurn].

    libkernel, the kernel and its modules are not part of the page. They are
    an interface here ([Kernel]): every statement below holds for whatever
    the kernel answers. *)

From Stdlib Require Import ZArith List String Ascii Lia DecimalString.
From Stdlib.Strings Require Import Byte.
From stdpp Require Import base list strings.

Open Scope string_scope.
Set Warnings "-register-all".

(** ** JavaScript values *)

(** The values the test methods receive from the kernel and compare.
    Numbers are the integers (progress counters, lengths, byte values are
    all integral); [JBytes] is a [Uint8Array]; [JError] is an [Error] object
    such as the [TypeError] of a failed property access. *)
Inductive JsVal : Type :=
| JUndefined
| JNull
| JBool (b : bool)
| JNum (n : Z)
| JStr (s : string)
| JBytes (bs : list byte)
| JArr (xs : list JsVal)
| JObj (fields : list (string * JsVal))
| JError (name message : string).

(** A statement either completes with a value or throws. *)
Inductive Completion (A : Type) : Type :=
| Normal (a : A)
| Throw (e : JsVal).
Arguments Normal {A} a.
Arguments Throw {A} e.

Definition bindC {A B} (c : Completion A) (k : A -> Completion B) : Completion B :=
  match c with
  | Normal a => k a
  | Throw e => Throw e
  end.

Notation "'let*' x ':=' c 'in' k" := (bindC c (fun x => k))
  (at level 10, x name, c at level 100, k at level 200).

Definition TypeError (message : string) : JsVal := JError "TypeError" message.

Definition string_of_Z (n : Z) : string := NilZero.string_of_int (Z.to_int n).

Definition byte_num (b : byte) : JsVal := JNum (Z.of_N (Byte.to_N b)).

Fixpoint assoc (key : string) (fields : list (string * JsVal)) : option JsVal :=
  match fields with
  | [] => None
  | (k, v) :: rest => if String.eqb k key then Some v else assoc key rest
  end.

(** [key in v], for the property names the page uses (none of them is an
    index, nor a name found on a prototype).  On a primitive the operator
    throws. *)
Definition js_in (key : string) (v : JsVal) : Completion bool :=
  match v with
  | JObj fields => Normal (bool_decide (is_Some (assoc key fields)))
  | JArr _ | JBytes _ => Normal (String.eqb key "length")
  | JError _ _ => Normal (String.eqb key "name" || String.eqb key "message")
  | _ => Throw (TypeError "right-hand side of 'in' is not an object")
  end.

(** [v.key].  Reading a property of [undefined] or [null] throws. *)
Definition js_get (key : string) (v : JsVal) : Completion JsVal :=
  match v with
  | JUndefined | JNull => Throw (TypeError "cannot read properties of undefined or null")
  | JObj fields => Normal (default JUndefined (assoc key fields))
  | JStr s =>
      Normal (if String.eqb key "length" then JNum (Z.of_nat (String.length s)) else JUndefined)
  | JArr xs =>
      Normal (if String.eqb key "length" then JNum (Z.of_nat (length xs)) else JUndefined)
  | JBytes bs =>
      Normal (if String.eqb key "length" then JNum (Z.of_nat (length bs)) else JUndefined)
  | JError name message =>
      Normal (if String.eqb key "name" then JStr name
              else if String.eqb key "message" then JStr message
              else JUndefined)
  | JBool _ | JNum _ => Normal JUndefined
  end.

(** [v[i]] for a non-negative integer [i]. *)
Definition js_index (v : JsVal) (i : nat) : Completion JsVal :=
  match v with
  | JUndefined | JNull => Throw (TypeError "cannot read properties of undefined or null")
  | JBytes bs => Normal (from_option byte_num JUndefined (bs !! i))
  | JArr xs => Normal (default JUndefined (xs !! i))
  | JStr s => Normal (from_option (fun c => JStr (String c "")) JUndefined (String.get i s))
  | JObj fields => Normal (default JUndefined (assoc (string_of_Z (Z.of_nat i)) fields))
  | JBool _ | JNum _ | JError _ _ => Normal JUndefined
  end.

Definition typeof (v : JsVal) : string :=
  match v with
  | JUndefined => "undefined"
  | JBool _ => "boolean"
  | JNum _ => "number"
  | JStr _ => "string"
  | JNull | JBytes _ | JArr _ | JObj _ | JError _ _ => "object"
  end.

(** [v === n] and [v === s] against a number and against a string: strict
    equality never converts. *)
Definition strict_eq_num (v : JsVal) (n : Z) : bool :=
  match v with
  | JNum m => Z.eqb m n
  | _ => false
  end.

Definition strict_eq_str (v : JsVal) (s : string) : bool :=
  match v with
  | JStr t => String.eqb t s
  | _ => false
  end.

Definition join_comma (parts : list string) : string :=
  match parts with
  | [] => ""
  | p :: ps => fold_left (fun acc q => acc ++ "," ++ q) ps p
  end.

(** The string conversion of ['text' + v]. *)
Fixpoint ToString (v : JsVal) : string :=
  match v with
  | JUndefined => "undefined"
  | JNull => "null"
  | JBool b => if b then "true" else "false"
  | JNum n => string_of_Z n
  | JStr s => s
  | JBytes bs => join_comma (map (fun b => string_of_Z (Z.of_N (Byte.to_N b))) bs)
  | JArr xs =>
      join_comma (map (fun x => match x with
                                | JUndefined | JNull => ""
                                | _ => ToString x
                                end) xs)
  | JObj _ => "[object Object]"
  | JError name message =>
      if String.eqb message "" then name else name ++ ": " ++ message
  end.

Definition js_concat (s : string) (v : JsVal) : JsVal := JStr (s ++ ToString v).

(** ** Promises *)

(** The fate of a promise: it is fulfilled with a value, rejected with a
    reason, or it never settles. *)
Inductive Promise : Type :=
| Fulfilled (v : JsVal)
| Rejected (e : JsVal)
| Pending.

Definition is_settled (p : Promise) : bool :=
  match p with
  | Pending => false
  | _ => true
  end.

Definition is_fulfilled (p : Promise) : bool :=
  match p with
  | Fulfilled _ => true
  | _ => false
  end.

(** What a callback written inside [new Promise((resolve, reject) => ...)]
    does to that promise: it calls [resolve] or it calls [reject]. *)
Inductive Settle : Type :=
| Resolve (v : JsVal)
| Reject (e : JsVal).

Definition settle (s : Settle) : Promise :=
  match s with
  | Resolve v => Fulfilled v
  | Reject e => Rejected e
  end.

(** [p.then(on_then).catch(on_catch)]: [on_catch] receives the rejection of
    [p], and also whatever [on_then] throws. *)
Definition then_catch (p : Promise) (on_then : JsVal -> Completion Settle)
    (on_catch : JsVal -> Settle) : Promise :=
  match p with
  | Fulfilled v =>
      match on_then v with
      | Normal s => settle s
      | Throw e => settle (on_catch e)
      end
  | Rejected e => settle (on_catch e)
  | Pending => Pending
  end.

(** ** The kernel, as libkernel shows it to the page *)

(** What [connectModule] makes happen after the call: [receiveUpdate] is
    invoked with the data of a responseUpdate, or the query promise is
    fulfilled or rejected. *)
Inductive QueryEvent : Type :=
| ResponseUpdate (data : JsVal)
| QueryFulfilled (data : JsVal)
| QueryRejected (err : JsVal).

Module kernel.

(** [K] is the state of the session with the kernel; every call may change
    it and answers with the fate of the promise it returned. *)
Class Kernel (K : Type) : Type := {
  init : K -> Promise * K;
  testMessage : K -> Promise * K;
  callModule : string -> JsVal -> JsVal -> K -> Promise * K;
  connectModule : string -> JsVal -> JsVal -> K -> list QueryEvent * K;
  upload : string -> list byte -> K -> Promise * K;
  download : JsVal -> K -> Promise * K;
  addContextToErr : JsVal -> string -> JsVal
}.

End kernel.

(** The parts of [window.location] that make the origin of the page: its
    scheme and its host. *)
Record Location : Type := {
  protocol : string;
  hostname : string;
  port : string
}.

Definition origin (l : Location) : string :=
  protocol l ++ "//" ++ hostname l ++ (if String.eqb (port l) "" then "" else ":" ++ port l).

(** The page's own environment. *)
Module window.

Class Browser : Type := {
  location : Location;
  JSON_stringify : JsVal -> string
}.

End window.

(** [new TextEncoder().encode(s)] for a string of ASCII characters. *)
Definition TextEncoder_encode (s : string) : list byte := list_byte_of_string s.

(** [new Uint8Array(n)]: [n] zero bytes. *)
Definition Uint8Array_new (n : nat) : list byte := repeat x00 n.

Definition newline : string := String (ascii_of_nat 10) "".

(** ** The test methods *)

Section TestMethods.

Context {K : Type} {k : kernel.Kernel K} {page : window.Browser}.

(** A test method: called on the session, it returns a promise. *)
Definition Test : Type := K -> Promise * K.

(** [new Promise((resolve, reject) => { request.then(on_then).catch(on_catch) })] *)
Definition promise_of (request : K -> Promise * K)
    (on_then : JsVal -> Completion Settle) (on_catch : JsVal -> Settle) : Test :=
  fun w =>
    let '(p, w') := request w in
    (then_catch p on_then on_catch, w').

Definition TestLibkernelInit : Test := kernel.init.

Definition TestSendTestMessage : Test := kernel.testMessage.

Definition kernelTestSuite : string := "AQCPJ9WRzMpKQHIsPo8no3XJpUydcDCjw7VJy8lG1MCZ3g".

Definition TestModuleHasSeed : Test :=
  promise_of (kernel.callModule kernelTestSuite (JStr "viewSeed") (JObj []))
    (fun data =>
       let* has_seed := js_in "seed" data in
       if negb has_seed
       then Normal (Reject (JStr "viewSeed in test module did not return a data.seed"))
       else
         let* seed := js_get "seed" data in
         let* len := js_get "length" seed in
         if negb (strict_eq_num len 16)
         then Normal (Reject (JStr
                "viewSeed in test module returned a seed with a non-standard length"))
         else Normal (Resolve (JStr "viewSeed appears to have returned a standard seed")))
    (fun err => Reject err).

Definition TestModuleLogging : Test :=
  promise_of (kernel.callModule kernelTestSuite (JStr "testLogging") (JObj []))
    (fun data => Normal (Resolve (JStr "test module has produced logs")))
    (fun err => Reject err).

Definition moduleDoesNotExist : string := "AQCPJ9WRzMpKQHIsPo9no3XJpUydcDCjw7VJy8lG1MCZ3g".

Definition TestMissingModule : Test :=
  promise_of (kernel.callModule moduleDoesNotExist (JStr "viewSeed") (JObj []))
    (fun data =>
       Normal (Reject (JStr ("kernel is supposed to return an error:"
                             ++ window.JSON_stringify data))))
    (fun err => Resolve err).

Definition moduleMalformed : string := "AQCPJ9WRzMpKQHIsPo8no3XJpUydcDCjw7VJy8lG1MCZ3".

Definition TestMalformedModule : Test :=
  promise_of (kernel.callModule moduleMalformed (JStr "viewSeed") (JObj []))
    (fun data => Normal (Reject (JStr "kernel is supposed to return an error")))
    (fun err => Resolve err).

(** The body of [TestModulePresentSeed] for the seed it presents. *)
Definition presentSeed (fakeSeed : list byte) : Test :=
  promise_of
    (kernel.callModule kernelTestSuite (JStr "presentSeed")
       (JObj [("seed", JBytes fakeSeed)]))
    (fun data => Normal (Reject (JStr "expecting an error for using a forbidden method")))
    (fun err => Resolve (js_concat "received expected error: " err)).

Definition TestModulePresentSeed : Test := presentSeed (Uint8Array_new 16).

Definition TestModuleQueryKernel : Test :=
  promise_of (kernel.callModule kernelTestSuite (JStr "sendTestToKernel") (JObj []))
    (fun data =>
       let* has_version := js_in "kernelVersion" data in
       if negb has_version
       then Normal (Reject (JStr "expecting response to have a kernelVersion"))
       else
         let* version := js_get "kernelVersion" data in
         Normal (Resolve version))
    (fun err => Reject (js_concat "callModule failed: " err)).

(** [TestModuleCheckHelperSeed] and [TestViewTesterSeedByHelper] differ in
    the method only. *)
Definition message_of (method : string) : Test :=
  promise_of (kernel.callModule kernelTestSuite (JStr method) (JObj []))
    (fun data =>
       let* has_message := js_in "message" data in
       if negb has_message
       then Normal (Reject (JStr "expecting response to have a kernelVersion"))
       else
         let* message := js_get "message" data in
         Normal (Resolve message))
    (fun err => Reject (js_concat "callModule failed: " err)).

Definition TestModuleCheckHelperSeed : Test := message_of "viewHelperSeed".

Definition TestViewTesterSeedByHelper : Test := message_of "viewOwnSeedThroughHelper".

Definition TestMirrorDomain : Test :=
  promise_of (kernel.callModule kernelTestSuite (JStr "mirrorDomain") (JObj []))
    (fun data =>
       let* has_domain := js_in "domain" data in
       if negb has_domain
       then Normal (Reject (JStr "mirrorDomain did not return a domain"))
       else
         let* domain := js_get "domain" data in
         if negb (String.eqb (typeof domain) "string")
         then Normal (Reject (JStr ("mirrorDomain returned wrong type: " ++ typeof domain)))
         else if negb (strict_eq_str domain (hostname window.location))
         then Normal (Reject (JStr ("wrong domain" ++ newline ++ "expected: "
                                    ++ (hostname window.location) ++ newline ++ "got: "
                                    ++ ToString domain)))
         else Normal (Resolve (js_concat "got expected domain: " domain)))
    (fun err => Reject err).

Definition TestMethodFieldRequired : Test :=
  promise_of (kernel.callModule kernelTestSuite JNull (JObj []))
    (fun data =>
       Normal (Reject (JStr "expecting a call to the kernel with no method to fail")))
    (fun err =>
       Resolve (js_concat "kernel failed when there was a call with no method: " err)).

(** *** [TestResponseUpdates] *)

(** The variables the callbacks of [TestResponseUpdates] share: the
    [progress] counter, whether the query promise has settled, and the
    promise the test returned.  A promise keeps its first settlement. *)
Record UpdateState : Type := {
  progress : Z;
  query_settled : bool;
  outcome : Promise
}.

Definition settle_once (st : UpdateState) (s : Settle) : UpdateState :=
  match outcome st with
  | Pending => {| progress := progress st; query_settled := query_settled st;
                  outcome := settle s |}
  | _ => st
  end.

(** [receiveUpdate(data)].  When [data] is not an object the [in] operator
    throws into libkernel, which called; the test's variables are left as
    they were. *)
Definition receiveUpdate (st : UpdateState) (data : JsVal) : UpdateState :=
  match js_in "eventProgress" data with
  | Throw _ => st
  | Normal false => settle_once st (Reject (JStr "eventProgress not provided in response"))
  | Normal true =>
      match js_get "eventProgress" data with
      | Throw _ => st
      | Normal eventProgress =>
          if negb (strict_eq_num eventProgress (progress st + 25))
          then settle_once st
                 (Reject (JStr "progress messages appear to be arriving out of order"))
          else {| progress := progress st + 25; query_settled := query_settled st;
                  outcome := outcome st |}
      end
  end.

(** The [then] callback of the query. *)
Definition query_then (st : UpdateState) (data : JsVal) : Completion Settle :=
  if negb (Z.eqb (progress st) 75)
  then Normal (Reject (JStr "response was received before responseUpdates were completed"))
  else
    let* has_progress := js_in "eventProgress" data in
    if negb has_progress
    then Normal (Reject (JStr "expecting response to contain eventProgress"))
    else
      let* eventProgress := js_get "eventProgress" data in
      if negb (strict_eq_num eventProgress 100)
      then Normal (Reject (JStr "expecting response eventProgress to be 100"))
      else Normal (Resolve (JStr
             "received all messages in order and final message was a response")).

(** The [catch] callback of the query. *)
Definition query_catch (err : JsVal) : Settle :=
  Reject (kernel.addContextToErr err "testResponseUpdate failed").

Definition close_query (st : UpdateState) (s : Settle) : UpdateState :=
  let st' := settle_once st s in
  {| progress := progress st'; query_settled := true; outcome := outcome st' |}.

(** One event of the open query.  The query promise settles once: a second
    settlement of it runs no callback. *)
Definition on_event (st : UpdateState) (ev : QueryEvent) : UpdateState :=
  match ev with
  | ResponseUpdate data => receiveUpdate st data
  | QueryFulfilled data =>
      if query_settled st then st
      else match query_then st data with
           | Normal s => close_query st s
           | Throw e => close_query st (query_catch e)
           end
  | QueryRejected err =>
      if query_settled st then st else close_query st (query_catch err)
  end.

Definition responseUpdates_start : UpdateState :=
  {| progress := 0; query_settled := false; outcome := Pending |}.

Definition responseUpdates_run (events : list QueryEvent) : UpdateState :=
  fold_left on_event events responseUpdates_start.

Definition TestResponseUpdates : Test :=
  fun w =>
    let '(events, w') :=
      kernel.connectModule kernelTestSuite (JStr "testResponseUpdate") (JObj []) w in
    (outcome (responseUpdates_run events), w').

Definition TestModuleUpdateQuery : Test :=
  promise_of (kernel.callModule kernelTestSuite (JStr "updateTest") (JObj []))
    (fun response => Normal (Resolve response))
    (fun err => Reject err).

Definition TestIgnoreResponseUpdates : Test :=
  promise_of (kernel.callModule kernelTestSuite (JStr "testResponseUpdate") (JObj []))
    (fun data =>
       let* has_progress := js_in "eventProgress" data in
       if negb has_progress
       then Normal (Reject (JStr "expecting response to contain eventProgress"))
       else
         let* eventProgress := js_get "eventProgress" data in
         if negb (strict_eq_num eventProgress 100)
         then Normal (Reject (JStr "expecting response eventProgress to be 100"))
         else Normal (Resolve (JStr
                "received final message when calling testResponseUpdate using callModule")))
    (fun err => Reject err).

Definition TestBasicCORS : Test :=
  promise_of (kernel.callModule kernelTestSuite (JStr "testCORS") (JObj []))
    (fun data =>
       let* has_url := js_in "url" data in
       if negb has_url
       then Normal (Reject (JStr "testCORS did not return a url"))
       else
         let* url := js_get "url" data in
         if negb (String.eqb (typeof url) "string")
         then
           let* domain := js_get "domain" data in
           Normal (Reject (JStr ("testCORS returned wrong type: " ++ typeof domain)))
         else Normal (Resolve (js_concat "CORS test passed for url: " url)))
    (fun err => Reject err).

(** *** [TestSecureUploadAndDownload] *)

Definition mismatch_message (fileDataUp : list byte) (fileDataDown : JsVal) : JsVal :=
  JStr ("uploaded data and downloaded data do not match: "
        ++ window.JSON_stringify
             (JObj [("uploaded", JBytes fileDataUp); ("downloaded", fileDataDown)])).

(** The [for] loop over the indices of [fileDataUp], from index [i] on,
    where [rest] is what [fileDataUp] holds from [i]: does some index hold
    different elements? *)
Fixpoint differs_from (rest : list byte) (i : nat) (fileDataDown : JsVal)
    : Completion bool :=
  match rest with
  | [] => Normal false
  | b :: rest' =>
      let* d := js_index fileDataDown i in
      if negb (strict_eq_num d (Z.of_N (Byte.to_N b)))
      then Normal true
      else differs_from rest' (S i) fileDataDown
  end.

(** The [then] callback of the download. *)
Definition download_then (fileDataUp : list byte) (skylink fileDataDown : JsVal)
    : Completion Settle :=
  let* down_length := js_get "length" fileDataDown in
  if negb (strict_eq_num down_length (Z.of_nat (length fileDataUp)))
  then Normal (Reject (mismatch_message fileDataUp fileDataDown))
  else
    let* differs := differs_from fileDataUp 0 fileDataDown in
    if differs
    then Normal (Reject (mismatch_message fileDataUp fileDataDown))
    else Normal (Resolve skylink).

(** The body of [TestSecureUploadAndDownload] for the file it uploads. *)
Definition uploadAndDownload (name : string) (fileDataUp : list byte) : Test :=
  fun w =>
    let '(uploaded, w1) := kernel.upload name fileDataUp w in
    match uploaded with
    | Fulfilled skylink =>
        promise_of (kernel.download skylink)
          (download_then fileDataUp skylink) (fun err => Reject err) w1
    | Rejected err => (Rejected err, w1)
    | Pending => (Pending, w1)
    end.

Definition TestSecureUploadAndDownload : Test :=
  uploadAndDownload "testUpload.txt" (TextEncoder_encode "test data").

(** *** [TestMsgSpeedSequential5k] *)

(** [sendSequentialMessages(remaining, resolve, reject)]: the next message
    is sent from the [then] callback of the previous one. *)
Fixpoint sendSequentialMessages (remaining : nat) (w : K) : Promise * K :=
  match remaining with
  | O => (Fulfilled (JStr "all messages resolved"), w)
  | S remaining' =>
      let '(sent, w') := kernel.testMessage w in
      match sent with
      | Fulfilled _ => sendSequentialMessages remaining' w'
      | Rejected x => (Rejected x, w')
      | Pending => (Pending, w')
      end
  end.

Definition TestMsgSpeedSequential5k : Test := sendSequentialMessages 5000.

Definition TestModuleSpeedSequential20k : Test :=
  promise_of
    (kernel.callModule kernelTestSuite (JStr "callModulePerformanceSequential")
       (JObj [("iterations", JNum 20000)]))
    (fun data => Normal (Resolve (JStr "sequential messages succeeded")))
    (fun err => Reject err).

Definition TestModuleSpeedParallel20k : Test :=
  promise_of
    (kernel.callModule kernelTestSuite (JStr "callModulePerformanceParallel")
       (JObj [("iterations", JNum 20000)]))
    (fun data => Normal (Resolve (JStr "sequential messages succeeded")))
    (fun err => Reject err).

(** [TestModuleHasErrors] and [TestHelperModuleHasErrors] ask two modules
    the same question. *)
Definition viewErrors (module who : string) : Test :=
  promise_of (kernel.callModule module (JStr "viewErrors") (JObj []))
    (fun data =>
       let* has_errors := js_in "errors" data in
       if negb has_errors
       then Normal (Reject (JStr ("viewErrors in " ++ who
                                  ++ " module did not return a data.errors")))
       else
         let* errors := js_get "errors" data in
         let* len := js_get "length" errors in
         if negb (strict_eq_num len 0)
         then Normal (Reject (JStr (who ++ " module has acculumated errors: "
                                    ++ window.JSON_stringify errors)))
         else Normal (Resolve (JStr (who ++ " module did not accumulate any errors"))))
    (fun err => Reject err).

Definition TestModuleHasErrors : Test := viewErrors kernelTestSuite "test".

Definition helperModule : string := "AQCoaLP6JexdZshDDZRQaIwN3B7DqFjlY7byMikR7u1IEA".

Definition TestHelperModuleHasErrors : Test := viewErrors helperModule "helper".

(** *** The registry *)

Record TestCardValue : Type := {
  name : string;
  test : Test
}.

Definition testCardValues : list TestCardValue := [
  {| name := "TestLibkernelInit"; test := TestLibkernelInit |};
  {| name := "TestSendTestMessage"; test := TestSendTestMessage |};
  {| name := "TestModuleHasSeed"; test := TestModuleHasSeed |};
  {| name := "TestModuleLogging"; test := TestModuleLogging |};
  {| name := "TestModuleMissingModule"; test := TestMissingModule |};
  {| name := "TestModuleMalformedModule"; test := TestMalformedModule |};
  {| name := "TestModulePresentSeed"; test := TestModulePresentSeed |};
  {| name := "TestModuleQueryKernel"; test := TestModuleQueryKernel |};
  {| name := "TestModuleCheckHelperSeed"; test := TestModuleCheckHelperSeed |};
  {| name := "TestViewTesterSeedByHelper"; test := TestViewTesterSeedByHelper |};
  {| name := "TestMirrorDomain"; test := TestMirrorDomain |};
  {| name := "TestMethodFieldRequired"; test := TestMethodFieldRequired |};
  {| name := "TestResponseUpdates"; test := TestResponseUpdates |};
  {| name := "TestModuleUpdateQuery"; test := TestModuleUpdateQuery |};
  {| name := "TestIgnoreResponseUpdates"; test := TestIgnoreResponseUpdates |};
  {| name := "TestBasicCORS"; test := TestBasicCORS |};
  {| name := "TestSecureUploadAndDownload"; test := TestSecureUploadAndDownload |};
  {| name := "TestMsgSpeedSequential5k"; test := TestMsgSpeedSequential5k |};
  {| name := "TestModuleSpeedSeq20k"; test := TestModuleSpeedSequential20k |};
  {| name := "TestModuleSpeedParallel20k"; test := TestModuleSpeedParallel20k |};
  {| name := "TestModuleHasErrors"; test := TestModuleHasErrors |};
  {| name := "TestHelperModuleHasErrors"; test := TestHelperModuleHasErrors |}
].

End TestMethods.

(** ** [App.js]: the test cards and the queue *)

Section App.

Context {K : Type}.

(** The tests the page renders a card for ([testCardValues] on the page
    itself). *)
Variable registry : list (@TestCardValue K).

(** What a card shows.  The elapsed time it also shows is a difference of
    two clock readings and is left out. *)
Record CardState : Type := {
  testStatus : JsVal;
  statusColor : string
}.

Definition card_waiting : CardState :=
  {| testStatus := JStr "test is waiting"; statusColor := "rgba(60, 60, 60, 0.6)" |}.

Definition card_running : CardState :=
  {| testStatus := JStr "test is running"; statusColor := "rgba(255, 165, 0, 0.6)" |}.

Definition card_success (x : JsVal) : CardState :=
  {| testStatus := js_concat "test success: " x; statusColor := "rgba(0, 80, 0, 0.6)" |}.

(** The card of a failed test holds the reason as it came, not a string
    made of it: it can be shown only when React can render that value (see
    [renderable] and [on_settled]). *)
Definition card_failure (x : JsVal) : CardState :=
  {| testStatus := x; statusColor := "rgba(255, 0, 0, 0.6)" |}.

(** What React renders as the child of the paragraph that shows
    [testStatus]: strings and numbers as text; [undefined], [null] and
    booleans as nothing; arrays and typed arrays element by element.  On an
    [Error] or any other object it throws. *)
Fixpoint renderable (x : JsVal) : bool :=
  match x with
  | JUndefined | JNull | JBool _ | JNum _ | JStr _ | JBytes _ => true
  | JArr xs => forallb renderable xs
  | JObj _ | JError _ _ => false
  end.

(** A test a card has started: the card, the [queueTurn] its effect closed
    over, and the fate of the promise [test()] returned. *)
Record Running : Type := {
  run_spot : nat;
  run_turn : nat;
  fate : Promise
}.

(** What happened on the page, oldest first. *)
Inductive QueueEvent : Type :=
| Started (spot : nat)
| Settled (spot : nat) (result : Promise).

(** The page.  [mounted] is false once a render has thrown: no error
    boundary catches it, React unmounts the whole tree, and no card is left. *)
Record AppState : Type := {
  queueTurn : nat;
  cards : list CardState;
  running : list Running;
  session : K;
  history : list QueueEvent;
  mounted : bool
}.

(** The effect of the card at [queueSpot], run after a render that saw
    [queueTurn]. *)
Definition card_effect (queueTurn' : nat) (s : AppState)
    (card : nat * TestCardValue) : AppState :=
  let '(queueSpot, props) := card in
  if Nat.eqb queueTurn' queueSpot
  then
    let '(p, w') := test props (session s) in
    {| queueTurn := queueTurn s;
       cards := <[queueSpot := card_running]> (cards s);
       running := running s ++
                  [{| run_spot := queueSpot; run_turn := queueTurn'; fate := p |}];
       session := w';
       history := history s ++ [Started queueSpot];
       mounted := mounted s |}
  else s.

(** [testCardValues.map((test, index) => ...)]: each card with its index. *)
Definition testCards : list (nat * TestCardValue) :=
  zip (seq 0 (length registry)) registry.

(** The effects of all cards, in the order of the cards, after a render in
    which [queueTurn] was new. *)
Definition run_effects (s : AppState) : AppState :=
  fold_left (card_effect (queueTurn s)) testCards s.

(** The first render: [useState(0)], every card waiting, then the effects. *)
Definition mount (w : K) : AppState :=
  run_effects
    {| queueTurn := 0;
       cards := map (fun _ => card_waiting) registry;
       running := [];
       session := w;
       history := [];
       mounted := true |}.

(** [setQueueTurn(v)]: a render follows, and the effects with it, only
    when the value is new. *)
Definition setQueueTurn (v : nat) (s : AppState) : AppState :=
  let s' := {| queueTurn := v; cards := cards s; running := running s;
               session := session s; history := history s;
               mounted := mounted s |} in
  if Nat.eqb v (queueTurn s) then s' else run_effects s'.

(** The [then] and [catch] callbacks of the [i]-th started test, when its
    promise settles.  A promise that never settles runs neither.

    The [then] callback shows a string, ['test success: ' + x].  The [catch]
    callback shows the reason [x] itself: when React cannot render [x] the
    render of the card throws, the page is unmounted, and neither the new
    turn nor any effect is ever seen.  On a page that is already unmounted
    the callbacks set the state of components that are gone. *)
Definition on_settled (i : nat) (r : Running) (s : AppState) : option AppState :=
  let settled (cards' : list CardState) (mounted' : bool) :=
    {| queueTurn := queueTurn s;
       cards := cards';
       running := delete i (running s);
       session := session s;
       history := history s ++ [Settled (run_spot r) (fate r)];
       mounted := mounted' |} in
  let finish (shown : CardState) :=
    setQueueTurn (run_turn r + 1) (settled (<[run_spot r := shown]> (cards s)) true) in
  if negb (mounted s)
  then match fate r with
       | Pending => None
       | _ => Some (settled (cards s) false)
       end
  else match fate r with
       | Fulfilled x => Some (finish (card_success x))
       | Rejected x =>
           if renderable x
           then Some (finish (card_failure x))
           else Some (settled [] false)
       | Pending => None
       end.

(** One step of the page: the promise of some started test settles. *)
Definition step (s s' : AppState) : Prop :=
  exists i r, running s !! i = Some r /\ on_settled i r s = Some s'.

Inductive reachable (w : K) : AppState -> Prop :=
| reachable_mount : reachable w (mount w)
| reachable_step s s' : reachable w s -> step s s' -> reachable w s'.

(** The page driven until nothing can settle: the oldest started test
    settles first. *)
Definition next (s : AppState) : option AppState :=
  match running s with
  | [] => None
  | r :: _ => on_settled 0 r s
  end.

Fixpoint run (fuel : nat) (s : AppState) : AppState :=
  match fuel with
  | O => s
  | S fuel' =>
      match next s with
      | Some s' => run fuel' s'
      | None => s
      end
  end.

(** The tests called one after the other on the session: their promises
    and the session they leave. *)
Fixpoint in_sequence (tests : list (@TestCardValue K)) (w : K) : list Promise * K :=
  match tests with
  | [] => ([], w)
  | t :: rest =>
      let '(p, w') := test t w in
      let '(ps, w'') := in_sequence rest w' in
      (p :: ps, w'')
  end.

(** The terminal outcomes in a history, oldest first. *)
Definition outcomes (h : list QueueEvent) : list (nat * Promise) :=
  omap (fun e => match e with
                 | Settled spot p => Some (spot, p)
                 | Started _ => None
                 end) h.

End App.

(** ** Notions the statements use *)

Section Notions.

Context {K : Type}.

(** The history of tests that ran one after the other, the first of them
    at position [spot]: each is started, then settles, before the next. *)
Fixpoint sequential_history (spot : nat) (results : list Promise)
    : list (@QueueEvent) :=
  match results with
  | [] => []
  | p :: rest => Started spot :: Settled spot p :: sequential_history (S spot) rest
  end.

(** The session after [n] test messages sent one after the other. *)
Definition after_messages {k : kernel.Kernel K} (n : nat) (w : K) : K :=
  Nat.iter n (fun w' => (kernel.testMessage w').2) w.

(** A kernel that also counts the test messages it is sent. *)
Definition counting (k : kernel.Kernel K) : kernel.Kernel (K * nat) :=
  let lift (f : K -> Promise * K) : K * nat -> Promise * (K * nat) :=
    fun '(w, n) => let '(p, w') := f w in (p, (w', n)) in
  {| kernel.init := lift kernel.init;
     kernel.testMessage :=
       fun '(w, n) => let '(p, w') := kernel.testMessage w in (p, (w', S n));
     kernel.callModule := fun target method data => lift (kernel.callModule target method data);
     kernel.connectModule :=
       fun target method data '(w, n) =>
         let '(events, w') := kernel.connectModule target method data w in
         (events, (w', n));
     kernel.upload := fun name bytes => lift (kernel.upload name bytes);
     kernel.download := fun skylink => lift (kernel.download skylink);
     kernel.addContextToErr := kernel.addContextToErr |}.

End Notions.

(** The number a frame carries as [eventProgress], if it carries one. *)
Definition eventProgress (data : JsVal) : option Z :=
  match js_get "eventProgress" data with
  | Normal (JNum n) => Some n
  | _ => None
  end.

(** The frames [receiveUpdate] reads: on any other value its [in] throws. *)
Definition is_object (data : JsVal) : bool :=
  match data with
  | JObj _ | JArr _ | JBytes _ | JError _ _ => true
  | _ => false
  end.

(** The data of the responseUpdates in a run of events, when the run holds
    nothing else. *)
Fixpoint updates_only (events : list QueryEvent) : option (list JsVal) :=
  match events with
  | [] => Some []
  | ResponseUpdate data :: rest => cons data <$> updates_only rest
  | _ => None
  end.

(** ** The invariant of the queue *)

Section QueueInvariant.

Context {K : Type} (registry : list (@TestCardValue K)) (w0 : K).

(** A settlement the page can show and go on from: a fulfilment, or a
    rejection with a reason React can render. *)
Definition displayable (p : Promise) : bool :=
  match p with
  | Fulfilled _ => true
  | Rejected x => renderable x
  | Pending => false
  end.

(** Where the page stands when [queueTurn] is [q]: the tests before [q]
    ran one after the other, settled and were shown.  On the mounted page
    the test at [q], if there is one, is the only one started and not yet
    settled; the unmounted page is what the rejection of the test at [q],
    with a reason that cannot be rendered, has left. *)
Definition queue_inv (s : AppState) : Prop :=
  let q := queueTurn s in
  let '(ps, w) := in_sequence (take q registry) w0 in
  Forall (fun p => displayable p = true) ps /\
  if mounted s
  then
    length (cards s) = length registry /\
    match registry !! q with
    | Some props =>
        let '(p, w') := test props w in
        running s = [{| run_spot := q; run_turn := q; fate := p |}] /\
        session s = w' /\
        history s = (sequential_history 0 ps ++ [Started q])%list
    | None =>
        q = length registry /\ running s = [] /\ session s = w /\
        history s = sequential_history 0 ps
    end
  else
    cards s = [] /\ running s = [] /\
    exists props x,
      registry !! q = Some props /\
      (test props w).1 = Rejected x /\ renderable x = false /\
      session s = (test props w).2 /\
      history s =
        (sequential_history 0 ps ++ [Started q; Settled q (Rejected x)])%list.

End QueueInvariant.

(** ** A kernel to run the page against *)

(** A stand-in for the kernel, with switches: without the [bridge] nothing
    answers; the [fail_at]-th test message (counted from 0) is rejected; a
    [careless] kernel gives one reason for every module it cannot load,
    hands out a seed that changes from query to query, and reports the
    calling module instead of the page as the domain of a relayed call. *)
Module mock.

Record Config : Type := {
  bridge : bool;
  careless : bool;
  fail_at : option nat
}.

Record Session : Type := {
  sent : nat;
  seed_queries : nat;
  files : list (string * list byte)
}.

Definition start : Session := {| sent := 0; seed_queries := 0; files := [] |}.

Definition page : window.Browser :=
  {| window.location := {| protocol := "https:"; hostname := "kernel.test"; port := "" |};
     window.JSON_stringify := ToString |}.

Definition cannot_load (c : Config) (reason : string) : JsVal :=
  JStr (if careless c then "module could not be loaded" else reason).

Definition seed (c : Config) (st : Session) : list byte :=
  repeat (if careless c && Nat.odd (seed_queries st) then x01 else x2a) 16.

Definition answer (c : Config) (method : string) (st : Session) : Promise * Session :=
  if String.eqb method "viewSeed"
  then (Fulfilled (JObj [("seed", JBytes (seed c st))]),
        {| sent := sent st; seed_queries := S (seed_queries st); files := files st |})
  else if String.eqb method "presentSeed"
  then (Rejected (JStr "presentSeed is a forbidden method"), st)
  else if String.eqb method "sendTestToKernel"
  then (Fulfilled (JObj [("kernelVersion", JStr "v0.1.0")]), st)
  else if String.eqb method "viewHelperSeed" || String.eqb method "viewOwnSeedThroughHelper"
  then (Fulfilled (JObj [("message", JStr "the seed is as expected")]), st)
  else if String.eqb method "mirrorDomain"
  then (Fulfilled (JObj [("domain", JStr (hostname (@window.location page)))]), st)
  else if String.eqb method "testerMirrorDomain"
  then (Fulfilled (JObj [("domain",
          JStr (if careless c then kernelTestSuite
                else hostname (@window.location page)))]), st)
  else if String.eqb method "testResponseUpdate"
  then (Fulfilled (JObj [("eventProgress", JNum 100)]), st)
  else if String.eqb method "testCORS"
  then (Fulfilled (JObj [("url", JStr "https://example.com")]), st)
  else if String.eqb method "viewErrors"
  then (Fulfilled (JObj [("errors", JArr [])]), st)
  else if String.eqb method "testLogging" || String.eqb method "updateTest"
          || String.eqb method "callModulePerformanceSequential"
          || String.eqb method "callModulePerformanceParallel"
  then (Fulfilled (JObj []), st)
  else (Rejected (JStr "unknown method"), st).

Definition no_bridge : JsVal := JStr "bridge unavailable".

Definition callModule (c : Config) (target : string) (method data : JsVal) (st : Session)
    : Promise * Session :=
  if negb (bridge c) then (Rejected no_bridge, st)
  else if negb (Nat.eqb (String.length target) 46)
  then (Rejected (cannot_load c "malformed module identifier"), st)
  else if negb (String.eqb target kernelTestSuite || String.eqb target helperModule)
  then (Rejected (cannot_load c "module not found"), st)
  else match method with
       | JStr m => answer c m st
       | _ => (Rejected (JStr "method is required"), st)
       end.

Definition frame (n : Z) : JsVal := JObj [("eventProgress", JNum n)].

Definition connectModule (c : Config) (target : string) (method data : JsVal)
    (st : Session) : list QueryEvent * Session :=
  if negb (bridge c) then ([QueryRejected no_bridge], st)
  else if String.eqb target kernelTestSuite && strict_eq_str method "testResponseUpdate"
  then ([ResponseUpdate (frame 25); ResponseUpdate (frame 50); ResponseUpdate (frame 75);
         QueryFulfilled (frame 100)], st)
  else ([QueryRejected (JStr "unknown method")], st).

Definition testMessage (c : Config) (st : Session) : Promise * Session :=
  let st' := {| sent := S (sent st); seed_queries := seed_queries st; files := files st |} in
  if negb (bridge c) then (Rejected no_bridge, st')
  else if bool_decide (fail_at c = Some (sent st))
  then (Rejected (JStr "the kernel did not answer"), st')
  else (Fulfilled (JStr "v0.1.0"), st').

Definition upload (c : Config) (name : string) (bytes : list byte) (st : Session)
    : Promise * Session :=
  if negb (bridge c) then (Rejected no_bridge, st)
  else (Fulfilled (JStr name),
        {| sent := sent st; seed_queries := seed_queries st;
           files := (name, bytes) :: files st |}).

Definition download (c : Config) (skylink : JsVal) (st : Session) : Promise * Session :=
  if negb (bridge c) then (Rejected no_bridge, st)
  else match skylink with
       | JStr name =>
           match list_find (fun f => f.1 = name) (files st) with
           | Some (_, (_, bytes)) => (Fulfilled (JBytes bytes), st)
           | None => (Rejected (JStr "file not found"), st)
           end
       | _ => (Rejected (JStr "malformed skylink"), st)
       end.

Definition kernel_of (c : Config) : kernel.Kernel Session :=
  {| kernel.init := fun st =>
       (if bridge c then Fulfilled JUndefined else Rejected no_bridge, st);
     kernel.testMessage := testMessage c;
     kernel.callModule := callModule c;
     kernel.connectModule := connectModule c;
     kernel.upload := upload c;
     kernel.download := download c;
     kernel.addContextToErr := fun err context => JStr (context ++ ": " ++ ToString err) |}.

Definition faithful : Config := {| bridge := true; careless := false; fail_at := None |}.
Definition sloppy : Config := {| bridge := true; careless := true; fail_at := None |}.
Definition unplugged : Config := {| bridge := false; careless := false; fail_at := None |}.
Definition failing_at (i : nat) : Config :=
  {| bridge := true; careless := false; fail_at := Some i |}.

(** The page's registry on the stand-in. *)
Definition cards (c : Config) : list (@TestCardValue Session) :=
  @testCardValues Session (kernel_of c) page.

End mock.

(** The progress values count up from [p] to 75 in steps of 25. *)
Fixpoint counts_up (p : Z) (values : list (option Z)) : Prop :=
  match values with
  | [] => p = 75%Z
  | v :: rest => v = Some (p + 25)%Z /\ counts_up (p + 25) rest
  end.

(** What [TestResponseUpdates] resolves with. *)
Definition all_in_order : JsVal :=
  JStr "received all messages in order and final message was a response".

(** What [TestModuleHasSeed] resolves with. *)
Definition standard_seed : JsVal :=
  JStr "viewSeed appears to have returned a standard seed".

(** The page passes: every registered test, called in turn on the session,
    is fulfilled. *)
Definition page_passes {K : Type} (k : kernel.Kernel K) (page : window.Browser) (w : K)
    : Prop :=
  Forall (fun p => is_fulfilled p = true) (in_sequence (@testCardValues K k page) w).1.

(** ** Further notions: what the cards show, kernels that answer *)

(** What the card of a started test shows, given the fate of its promise:
    the result once it has settled, "test is running" until then. *)
Definition shown (p : Promise) : CardState :=
  match p with
  | Fulfilled x => card_success x
  | Rejected x => card_failure x
  | Pending => card_running
  end.

(** The events of a query hold its settlement. *)
Definition has_terminal (events : list QueryEvent) : bool :=
  existsb (fun ev => match ev with
                     | ResponseUpdate _ => false
                     | QueryFulfilled _ | QueryRejected _ => true
                     end) events.

(** A kernel that answers: every promise it returns settles. *)
Definition responsive {K : Type} (k : kernel.Kernel K) : Prop :=
  (forall w, is_settled (kernel.init w).1 = true) /\
  (forall w, is_settled (kernel.testMessage w).1 = true) /\
  (forall target method data w,
     is_settled (kernel.callModule target method data w).1 = true) /\
  (forall target method data w,
     has_terminal (kernel.connectModule target method data w).1 = true) /\
  (forall name bytes w, is_settled (kernel.upload name bytes w).1 = true) /\
  (forall skylink w, is_settled (kernel.download skylink w).1 = true).

(** A kernel behind a bridge that went silent after [init]: no other
    promise it returns ever settles. *)
Definition silent : kernel.Kernel unit :=
  {| kernel.init := fun w => (Fulfilled JUndefined, w);
     kernel.testMessage := fun w => (Pending, w);
     kernel.callModule := fun _ _ _ w => (Pending, w);
     kernel.connectModule := fun _ _ _ w => ([], w);
     kernel.upload := fun _ _ w => (Pending, w);
     kernel.download := fun _ w => (Pending, w);
     kernel.addContextToErr := fun err context => JStr (context ++ ": " ++ ToString err) |}.

(** While [TestResponseUpdates] is pending its query is open. *)
Definition open_while_pending (st : UpdateState) : Prop :=
  outcome st = Pending -> query_settled st = false.

(** ** Kernels that differ from the faithful stand-in in one answer *)

Module variant.

Definition base : kernel.Kernel mock.Session := mock.kernel_of mock.faithful.

(** It answers [viewSeed] with a seed that is [null]. *)
Definition seedless : kernel.Kernel mock.Session :=
  {| kernel.init := @kernel.init _ base;
     kernel.testMessage := @kernel.testMessage _ base;
     kernel.callModule := fun target method data st =>
       if strict_eq_str method "viewSeed"
       then (Fulfilled (JObj [("seed", JNull)]), st)
       else @kernel.callModule _ base target method data st;
     kernel.connectModule := @kernel.connectModule _ base;
     kernel.upload := @kernel.upload _ base;
     kernel.download := @kernel.download _ base;
     kernel.addContextToErr := @kernel.addContextToErr _ base |}.

(** The page's registry on it. *)
Definition seedless_cards : list (@TestCardValue mock.Session) :=
  @testCardValues mock.Session seedless mock.page.

(** Its query sends one more progress frame after the response. *)
Definition chatty : kernel.Kernel mock.Session :=
  {| kernel.init := @kernel.init _ base;
     kernel.testMessage := @kernel.testMessage _ base;
     kernel.callModule := @kernel.callModule _ base;
     kernel.connectModule := fun target method data st =>
       ([ResponseUpdate (mock.frame 25); ResponseUpdate (mock.frame 50);
         ResponseUpdate (mock.frame 75); QueryFulfilled (mock.frame 100);
         ResponseUpdate (mock.frame 125)], st);
     kernel.upload := @kernel.upload _ base;
     kernel.download := @kernel.download _ base;
     kernel.addContextToErr := @kernel.addContextToErr _ base |}.

(** It refuses a presented seed of zero bytes only, and takes any other. *)
Definition picky : kernel.Kernel mock.Session :=
  {| kernel.init := @kernel.init _ base;
     kernel.testMessage := @kernel.testMessage _ base;
     kernel.callModule := fun target method data st =>
       match js_get "seed" data with
       | Normal (JBytes bs) =>
           if strict_eq_str method "presentSeed" && negb (forallb (Byte.eqb x00) bs)
           then (Fulfilled (JObj []), st)
           else @kernel.callModule _ base target method data st
       | _ => @kernel.callModule _ base target method data st
       end;
     kernel.connectModule := @kernel.connectModule _ base;
     kernel.upload := @kernel.upload _ base;
     kernel.download := @kernel.download _ base;
     kernel.addContextToErr := @kernel.addContextToErr _ base |}.

(** It gives back the file "test data" as it was, and any other file with
    one byte more. *)
Definition lossy : kernel.Kernel mock.Session :=
  {| kernel.init := @kernel.init _ base;
     kernel.testMessage := @kernel.testMessage _ base;
     kernel.callModule := @kernel.callModule _ base;
     kernel.connectModule := @kernel.connectModule _ base;
     kernel.upload := @kernel.upload _ base;
     kernel.download := fun skylink st =>
       match @kernel.download _ base skylink st with
       | (Fulfilled (JBytes bs), st') =>
           (Fulfilled (JBytes (if String.eqb (string_of_list_byte bs) "test data"
                               then bs else x00 :: bs)), st')
       | other => other
       end;
     kernel.addContextToErr := @kernel.addContextToErr _ base |}.

End variant.

(** * Facts *)

Open Scope list_scope.

(** ** The queue *)

Section QueueFacts.

Context {K : Type} (registry : list (@TestCardValue K)).

Lemma effects_from (q : nat) (l : list (@TestCardValue K)) (a : nat) (s : AppState) :
  fold_left (card_effect q) (zip (seq a (length l)) l) s =
  match l !! (q - a) with
  | Some props => if decide (a <= q) then card_effect q s (q, props) else s
  | None => s
  end.
Proof.
  revert a s. induction l as [|props l IH]; intros a s; [done|].
  cbn [length seq zip zip_with fold_left]. rewrite IH.
  destruct (decide (q = a)) as [->|Hne].
  - replace (a - a) with 0 by lia. replace (a - S a) with 0 by lia. cbn.
    rewrite decide_True by lia.
    destruct (l !! 0); [rewrite decide_False by lia|]; reflexivity.
  - assert (Hs : card_effect q s (a, props) = s).
    { unfold card_effect. destruct (Nat.eqb_spec q a); [lia|done]. }
    rewrite Hs. destruct (decide (a <= q)) as [Hle|Hgt].
    + replace (q - a) with (S (q - S a)) by lia. cbn.
      destruct (l !! (q - S a)); [rewrite decide_True by lia|]; reflexivity.
    + replace (q - a) with 0 by lia. cbn.
      destruct (l !! (q - S a)); [rewrite decide_False by lia|]; reflexivity.
Qed.

(** After a render the card whose spot is [queueTurn], and no other,
    starts its test. *)
Lemma run_effects_spec (s : AppState) :
  run_effects registry s =
  match registry !! queueTurn s with
  | Some props =>
      let '(p, w') := test props (session s) in
      {| queueTurn := queueTurn s;
         cards := <[queueTurn s := card_running]> (cards s);
         running := running s ++
                    [{| run_spot := queueTurn s; run_turn := queueTurn s; fate := p |}];
         session := w';
         history := history s ++ [Started (queueTurn s)];
         mounted := mounted s |}
  | None => s
  end.
Proof.
  unfold run_effects, testCards. rewrite effects_from.
  replace (queueTurn s - 0) with (queueTurn s) by lia.
  destruct (registry !! queueTurn s) as [props|]; [|done].
  rewrite decide_True by lia. unfold card_effect. rewrite Nat.eqb_refl. done.
Qed.

Lemma in_sequence_length (l : list (@TestCardValue K)) (w : K) :
  length (in_sequence l w).1 = length l.
Proof.
  revert w. induction l as [|t l IH]; intros w; [done|].
  cbn. destruct (test t w) as [p w']. specialize (IH w').
  destruct (in_sequence l w') as [ps w'']. cbn in *. lia.
Qed.

Lemma in_sequence_snoc (l : list (@TestCardValue K)) (t : TestCardValue) (w : K) :
  in_sequence (l ++ [t]) w =
  let '(ps, w1) := in_sequence l w in
  let '(p, w2) := test t w1 in
  (ps ++ [p], w2).
Proof.
  revert w. induction l as [|t0 l IH]; intros w; cbn.
  - destruct (test t w) as [p w2]. done.
  - destruct (test t0 w) as [p0 w']. rewrite IH.
    destruct (in_sequence l w') as [ps w1]. destruct (test t w1) as [p w2]. done.
Qed.

Lemma in_sequence_app (l1 l2 : list (@TestCardValue K)) (w : K) :
  in_sequence (l1 ++ l2) w =
  let '(ps1, w1) := in_sequence l1 w in
  let '(ps2, w2) := in_sequence l2 w1 in
  (ps1 ++ ps2, w2).
Proof.
  revert w. induction l1 as [|t l1 IH]; intros w; cbn.
  - by destruct (in_sequence l2 w).
  - destruct (test t w) as [p w']. rewrite IH.
    destruct (in_sequence l1 w') as [ps1 w1]. by destruct (in_sequence l2 w1).
Qed.

(** The promise of the test at [q], as the sequence of all tests has it. *)
Lemma in_sequence_lookup (w0 : K) (q : nat) (props : TestCardValue) ps w :
  registry !! q = Some props ->
  in_sequence (take q registry) w0 = (ps, w) ->
  (in_sequence registry w0).1 !! q = Some (test props w).1.
Proof.
  intros Hq Hseq.
  pose proof (in_sequence_length (take q registry) w0) as Hlen.
  rewrite Hseq in Hlen. cbn in Hlen. rewrite length_take in Hlen.
  apply lookup_lt_Some in Hq as Hlt.
  rewrite <- (take_drop_middle registry q props Hq) at 1.
  rewrite in_sequence_app, Hseq. cbn.
  destruct (test props w) as [p w']. destruct (in_sequence _ w') as [ps2 w2]. cbn.
  rewrite lookup_app_r by lia. replace (q - length ps) with 0 by lia. done.
Qed.

Lemma sequential_history_snoc (a : nat) (ps : list Promise) (p : Promise) :
  sequential_history a (ps ++ [p]) =
  (sequential_history a ps ++ [Started (a + length ps); Settled (a + length ps) p])%list.
Proof.
  revert a. induction ps as [|p0 ps IH]; intros a; cbn.
  - by rewrite Nat.add_0_r.
  - rewrite IH. by replace (S a + length ps) with (a + S (length ps)) by lia.
Qed.

Lemma outcomes_sequential (a : nat) (ps : list Promise) :
  outcomes (sequential_history a ps) = zip (seq a (length ps)) ps.
Proof.
  revert a. induction ps as [|p ps IH]; intros a; [done|].
  cbn. unfold outcomes in IH. by rewrite IH.
Qed.

(** In a sequential history a test is started only after the test before
    it has settled. *)
Lemma started_after_settled (a k : nat) (ps : list Promise) h1 h2 :
  sequential_history a ps = h1 ++ Started k :: h2 ->
  a < k ->
  exists p, p ∈ ps /\ Settled (k - 1) p ∈ h1.
Proof.
  revert a h1. induction ps as [|p ps IH]; intros a h1 Heq Hlt; cbn in Heq.
  - by destruct h1.
  - destruct h1 as [|e1 [|e2 h1]]; cbn in Heq.
    + injection Heq as Heq _. lia.
    + injection Heq as _ Heq _. done.
    + injection Heq as <- <- Heq.
      destruct (decide (S a = k)) as [<-|Hne].
      * exists p. split; [left|]. replace (S a - 1) with a by lia. right; left.
      * destruct (IH (S a) h1 Heq) as (p' & Hin & Hin'); [lia|].
        exists p'. split; [by right|]. by do 2 right.
Qed.

Lemma started_in_sequential (a k : nat) (ps : list Promise) :
  a <= k < a + length ps -> Started k ∈ sequential_history a ps.
Proof.
  revert a. induction ps as [|p ps IH]; intros a Hk; cbn in *; [lia|].
  destruct (decide (a = k)) as [->|Hne]; [left|].
  do 2 right. apply IH. lia.
Qed.

Lemma next_step (s s' : AppState) : next registry s = Some s' -> step registry s s'.
Proof.
  unfold next. destruct (running s) as [|r rest] eqn:Er; [done|].
  intros Hon. exists 0, r. by rewrite Er.
Qed.

Lemma mount_turn (w0 : K) : queueTurn (mount registry w0) = 0.
Proof.
  unfold mount. rewrite run_effects_spec. cbn.
  destruct (registry !! 0) as [props|]; [|done]. by destruct (test props w0).
Qed.

Lemma mount_mounted (w0 : K) : mounted (mount registry w0) = true.
Proof.
  unfold mount. rewrite run_effects_spec. cbn.
  destruct (registry !! 0) as [props|]; [|done]. by destruct (test props w0).
Qed.

Lemma displayable_settled (p : Promise) : displayable p = true -> is_settled p = true.
Proof. by destruct p. Qed.

Lemma settled_cases (p : Promise) :
  is_settled p = true ->
  displayable p = true \/ exists x, p = Rejected x /\ renderable x = false.
Proof.
  destruct p as [v|x|]; cbn; [auto| |done]. intros _.
  destruct (renderable x) eqn:E; [auto|right; eauto].
Qed.

Lemma mount_inv (w0 : K) : queue_inv registry w0 (mount registry w0).
Proof.
  unfold queue_inv. rewrite mount_turn, mount_mounted, take_0. cbn.
  split; [constructor|].
  unfold mount. rewrite run_effects_spec. cbn [queueTurn session cards].
  destruct (registry !! 0) as [props|] eqn:E.
  - destruct (test props w0) as [p w'] eqn:Et. cbn.
    rewrite length_insert, length_map. done.
  - cbn. rewrite length_map. apply lookup_ge_None in E. repeat split; try done; lia.
Qed.

Lemma queue_inv_length (w0 : K) (s : AppState) ps w :
  queue_inv registry w0 s ->
  in_sequence (take (queueTurn s) registry) w0 = (ps, w) ->
  queueTurn s <= length registry /\ length ps = queueTurn s.
Proof.
  unfold queue_inv. intros Hinv Eseq. rewrite Eseq in Hinv.
  destruct Hinv as (_ & Hinv).
  pose proof (in_sequence_length (take (queueTurn s) registry) w0) as Hl.
  rewrite Eseq in Hl. cbn in Hl. rewrite length_take in Hl.
  destruct (mounted s).
  - destruct Hinv as (_ & Hinv).
    destruct (registry !! queueTurn s) as [props|] eqn:Eq.
    + apply lookup_lt_Some in Eq. clear Hinv. lia.
    + destruct Hinv as (Hq & _). rewrite Hq in *. lia.
  - destruct Hinv as (_ & _ & props & x & Eq & _).
    apply lookup_lt_Some in Eq. lia.
Qed.

(** At most one test is in flight, on a mounted page, and it is the test
    at the turn. *)
Lemma queue_inv_running (w0 : K) (s : AppState) :
  queue_inv registry w0 s ->
  length (running s) <= 1 /\
  forall r, r ∈ running s ->
    mounted s = true /\
    run_spot r = queueTurn s /\ run_turn r = queueTurn s /\
    queueTurn s < length registry /\
    (in_sequence registry w0).1 !! queueTurn s = Some (fate r).
Proof.
  unfold queue_inv. intros Hinv.
  destruct (in_sequence (take (queueTurn s) registry) w0) as [ps w] eqn:Eseq.
  destruct Hinv as (_ & Hinv). destruct (mounted s).
  - destruct Hinv as (_ & Hinv).
    destruct (registry !! queueTurn s) as [props|] eqn:Eq.
    + pose proof (in_sequence_lookup w0 _ _ _ _ Eq Eseq) as Hlook.
      destruct (test props w) as [p w']. destruct Hinv as (-> & _ & _).
      split; [cbn; lia|]. intros r Hr. apply list_elem_of_singleton in Hr as ->.
      cbn. apply lookup_lt_Some in Eq. done.
    + destruct Hinv as (_ & -> & _). split; [cbn; lia|]. intros r Hr. inversion Hr.
  - destruct Hinv as (_ & -> & _). split; [cbn; lia|]. intros r Hr. inversion Hr.
Qed.

(** The way on from a mounted page when the settlement can be shown: the
    card shows the result, the turn goes up by one and the next card, if
    there is one, starts its test. *)
Lemma advance_shown (w0 : K) (s : AppState) (r : Running) :
  queue_inv registry w0 s ->
  running s = [r] ->
  displayable (fate r) = true ->
  exists s',
    on_settled registry 0 r s = Some s' /\
    queue_inv registry w0 s' /\
    mounted s' = true /\
    queueTurn s' = S (queueTurn s) /\
    history s' =
      history s ++ Settled (queueTurn s) (fate r) ::
        (if decide (S (queueTurn s) < length registry)
         then [Started (S (queueTurn s))] else []) /\
    cards s' =
      if decide (S (queueTurn s) < length registry)
      then <[S (queueTurn s) := card_running]> (<[queueTurn s := shown (fate r)]> (cards s))
      else <[queueTurn s := shown (fate r)]> (cards s).
Proof.
  intros Hinv Hrun Hshow.
  destruct (queue_inv_running w0 s Hinv) as [_ Hr].
  destruct (Hr r) as (Hm & Hspot & Hturn & _); [rewrite Hrun; left|].
  unfold queue_inv in Hinv. rewrite Hm in Hinv.
  destruct (in_sequence (take (queueTurn s) registry) w0) as [ps w] eqn:Eseq.
  destruct Hinv as (Hshown & Hlen & Hinv).
  destruct (registry !! queueTurn s) as [props|] eqn:Eq; cycle 1.
  { destruct Hinv as (_ & Hnil & _). congruence. }
  destruct (test props w) as [p w'] eqn:Et.
  destruct Hinv as (Hr0 & Hses & Hhist).
  rewrite Hr0 in Hrun. injection Hrun as <-. cbn [fate] in *.
  assert (Hps : length ps = queueTurn s).
  { pose proof (in_sequence_length (take (queueTurn s) registry) w0) as Hl.
    rewrite Eseq in Hl. cbn in Hl. rewrite Hl, length_take.
    apply lookup_lt_Some in Eq. lia. }
  assert (Hnext : in_sequence (take (S (queueTurn s)) registry) w0 = (ps ++ [p], w')).
  { rewrite (take_S_r _ _ _ Eq), in_sequence_snoc, Eseq, Et. done. }
  set (s1 := {| queueTurn := S (queueTurn s);
                cards := <[queueTurn s := shown p]> (cards s);
                running := [];
                session := w';
                history := history s ++ [Settled (queueTurn s) p];
                mounted := true |}).
  assert (Hon : on_settled registry 0
                  {| run_spot := queueTurn s; run_turn := queueTurn s; fate := p |} s
                = Some (run_effects registry s1)).
  { unfold on_settled, setQueueTurn. cbn [fate run_turn run_spot queueTurn].
    rewrite Hm, Hr0, Hses. cbn [delete list_delete negb].
    replace (queueTurn s + 1) with (S (queueTurn s)) by lia.
    destruct (Nat.eqb_spec (S (queueTurn s)) (queueTurn s)) as [Habs|_]; [lia|].
    subst s1. destruct p as [v|x|]; cbn in Hshow |- *; [done| |discriminate].
    by rewrite Hshow. }
  exists (run_effects registry s1). split; [exact Hon|].
  rewrite run_effects_spec. subst s1.
  cbn [queueTurn session cards running history mounted].
  assert (Hh : history s ++ [Settled (queueTurn s) p] = sequential_history 0 (ps ++ [p])).
  { rewrite sequential_history_snoc, Hhist, Hps, <- app_assoc. done. }
  assert (Hall : Forall (fun p => displayable p = true) (ps ++ [p])).
  { apply Forall_app. split; [done|by constructor]. }
  destruct (registry !! S (queueTurn s)) as [props'|] eqn:Eq'.
  - destruct (test props' w') as [p' w''] eqn:Et'.
    cbn [queueTurn session cards running history mounted].
    apply lookup_lt_Some in Eq' as Hlt. rewrite !decide_True by lia.
    split; [|repeat split; try done; by rewrite <- app_assoc].
    unfold queue_inv. cbn [queueTurn session cards running history mounted].
    rewrite Hnext, Eq', Et'. rewrite !length_insert. rewrite <- Hh, <- app_assoc.
    done.
  - apply lookup_ge_None in Eq' as Hge. apply lookup_lt_Some in Eq as Hlt.
    rewrite !decide_False by lia.
    split; [|repeat split; done].
    unfold queue_inv. cbn [queueTurn session cards running history mounted].
    rewrite Hnext, Eq'. rewrite length_insert. rewrite <- Hh.
    repeat split; try done; lia.
Qed.

(** The way on from a mounted page when the reason of the rejection cannot
    be rendered: the page is unmounted, and the turn stays. *)
Lemma advance_crash (w0 : K) (s : AppState) (r : Running) (x : JsVal) :
  queue_inv registry w0 s ->
  running s = [r] ->
  fate r = Rejected x ->
  renderable x = false ->
  exists s',
    on_settled registry 0 r s = Some s' /\
    queue_inv registry w0 s' /\
    mounted s' = false /\
    queueTurn s' = queueTurn s /\
    running s' = [] /\
    cards s' = [] /\
    history s' = history s ++ [Settled (queueTurn s) (Rejected x)].
Proof.
  intros Hinv Hrun Hfate Hx.
  destruct (queue_inv_running w0 s Hinv) as [_ Hr].
  destruct (Hr r) as (Hm & Hspot & Hturn & _); [rewrite Hrun; left|].
  unfold queue_inv in Hinv. rewrite Hm in Hinv.
  destruct (in_sequence (take (queueTurn s) registry) w0) as [ps w] eqn:Eseq.
  destruct Hinv as (Hshown & Hlen & Hinv).
  destruct (registry !! queueTurn s) as [props|] eqn:Eq; cycle 1.
  { destruct Hinv as (_ & Hnil & _). congruence. }
  destruct (test props w) as [p w'] eqn:Et.
  destruct Hinv as (Hr0 & Hses & Hhist).
  rewrite Hr0 in Hrun. injection Hrun as <-. cbn [fate] in *. subst p.
  eexists. split.
  { unfold on_settled. cbn [fate run_turn run_spot]. rewrite Hm, Hx. cbn [negb]. done. }
  cbn [queueTurn session cards running history mounted].
  split; [|rewrite Hr0; done].
  unfold queue_inv. cbn [queueTurn session cards running history mounted].
  rewrite Eseq. split; [done|]. rewrite Hr0. cbn [delete list_delete].
  split; [done|]. split; [done|]. exists props, x. rewrite Et. cbn [fst snd].
  rewrite Hhist, <- app_assoc. done.
Qed.

(** Every step of the page is one of these two. *)
Lemma step_cases (w0 : K) (s s' : AppState) :
  queue_inv registry w0 s ->
  step registry s s' ->
  exists r,
    running s = [r] /\ mounted s = true /\ is_settled (fate r) = true /\
    on_settled registry 0 r s = Some s' /\
    queue_inv registry w0 s' /\
    ((displayable (fate r) = true /\
      mounted s' = true /\
      queueTurn s' = S (queueTurn s) /\
      history s' =
        history s ++ Settled (queueTurn s) (fate r) ::
          (if decide (S (queueTurn s) < length registry)
           then [Started (S (queueTurn s))] else []) /\
      cards s' =
        if decide (S (queueTurn s) < length registry)
        then <[S (queueTurn s) := card_running]>
               (<[queueTurn s := shown (fate r)]> (cards s))
        else <[queueTurn s := shown (fate r)]> (cards s))
     \/
     (exists x, fate r = Rejected x /\ renderable x = false /\
        mounted s' = false /\
        queueTurn s' = queueTurn s /\
        running s' = [] /\
        cards s' = [] /\
        history s' = history s ++ [Settled (queueTurn s) (Rejected x)])).
Proof.
  intros Hinv (i & r & Hi & Hon).
  destruct (queue_inv_running w0 s Hinv) as [Hlen Hr].
  destruct (running s) as [|r0 [|? ?]] eqn:Er; cbn in Hlen; [done| |lia].
  destruct i; [|done]. injection Hi as ->.
  destruct (Hr r) as (Hm & _); [left|].
  assert (Hset : is_settled (fate r) = true).
  { unfold on_settled in Hon. rewrite Hm in Hon. by destruct (fate r). }
  exists r. split; [done|]. split; [done|]. split; [done|]. split; [done|].
  destruct (settled_cases _ Hset) as [Hshow|(x & Hfate & Hx)].
  - destruct (advance_shown w0 s r Hinv Er Hshow) as (s1 & Hon1 & Hinv1 & H1).
    rewrite Hon in Hon1. injection Hon1 as <-. split; [done|]. left. done.
  - destruct (advance_crash w0 s r x Hinv Er Hfate Hx) as (s1 & Hon1 & Hinv1 & H1).
    rewrite Hon in Hon1. injection Hon1 as <-. split; [done|]. right.
    exists x. done.
Qed.

Lemma reachable_inv (w0 : K) (s : AppState) :
  reachable registry w0 s -> queue_inv registry w0 s.
Proof.
  induction 1 as [|s s' _ IH Hstep]; [apply mount_inv|].
  destruct (step_cases w0 s s' IH Hstep) as (r & _ & _ & _ & _ & Hinv & _). done.
Qed.

Lemma step_next (w0 : K) (s s' : AppState) :
  queue_inv registry w0 s -> step registry s s' -> next registry s = Some s'.
Proof.
  intros Hinv Hstep.
  destruct (step_cases w0 s s' Hinv Hstep) as (r & Er & _ & _ & Hon & _).
  unfold next. by rewrite Er.
Qed.

Lemma next_inv (w0 : K) (s s' : AppState) :
  queue_inv registry w0 s -> next registry s = Some s' -> queue_inv registry w0 s'.
Proof.
  intros Hinv Hnext. apply next_step in Hnext.
  destruct (step_cases w0 s s' Hinv Hnext) as (r & _ & _ & _ & _ & Hinv' & _). done.
Qed.

Lemma run_inv (w0 : K) (fuel : nat) (s : AppState) :
  queue_inv registry w0 s -> queue_inv registry w0 (run registry fuel s).
Proof.
  revert s. induction fuel as [|fuel IH]; intros s Hinv; cbn; [done|].
  destruct (next registry s) as [s'|] eqn:En; [|done].
  apply IH. by apply (next_inv w0 s).
Qed.

Lemma run_reachable (w0 : K) (fuel : nat) (s : AppState) :
  reachable registry w0 s -> reachable registry w0 (run registry fuel s).
Proof.
  revert s. induction fuel as [|fuel IH]; intros s Hs; cbn; [done|].
  destruct (next registry s) as [s'|] eqn:En; [|done].
  apply IH. eapply reachable_step; [exact Hs|]. by apply next_step.
Qed.

Lemma run_snoc (fuel : nat) (s : AppState) :
  run registry (S fuel) s =
  match next registry (run registry fuel s) with
  | Some s' => s'
  | None => run registry fuel s
  end.
Proof.
  revert s. induction fuel as [|fuel IH]; intros s.
  - cbn. by destruct (next registry s).
  - cbn [run] in *. destruct (next registry s) as [s1|] eqn:En.
    + apply IH.
    + by rewrite En.
Qed.

Lemma run_add (a b : nat) (s : AppState) :
  run registry (a + b) s = run registry b (run registry a s).
Proof.
  revert s. induction a as [|a IH]; intros s; [done|].
  cbn. destruct (next registry s) as [s1|] eqn:En; [apply IH|].
  destruct b; cbn; by rewrite ?En.
Qed.

Lemma run_stuck (fuel : nat) (s : AppState) :
  next registry s = None -> run registry fuel s = s.
Proof. intros Hn. destruct fuel; cbn; by rewrite ?Hn. Qed.

(** A mounted page with a test at the turn has that test in flight. *)
Lemma queue_inv_in_flight (w0 : K) (s : AppState) :
  queue_inv registry w0 s -> mounted s = true -> queueTurn s < length registry ->
  exists r, running s = [r].
Proof.
  unfold queue_inv. intros Hinv Hm Hlt. rewrite Hm in Hinv.
  destruct (in_sequence (take (queueTurn s) registry) w0) as [ps w].
  destruct Hinv as (_ & _ & Hinv).
  destruct (registry !! queueTurn s) as [props|] eqn:Eq.
  - destruct (test props w) as [p w']. destruct Hinv as (-> & _). eauto.
  - apply lookup_ge_None in Eq. lia.
Qed.

(** While the settlements can be shown the page goes on, one turn for one
    unit of fuel. *)
Lemma run_up_to (w0 : K) (q fuel : nat) (s : AppState) :
  (forall j p, j < q -> (in_sequence registry w0).1 !! j = Some p ->
               displayable p = true) ->
  q <= length registry ->
  queue_inv registry w0 s ->
  mounted s = true ->
  queueTurn s + fuel = q ->
  queueTurn (run registry fuel s) = q /\ mounted (run registry fuel s) = true.
Proof.
  intros Hall Hq. revert s.
  induction fuel as [|fuel IH]; intros s Hinv Hm Hsum; cbn; [split; [lia|done]|].
  destruct (queue_inv_running w0 s Hinv) as [Hlen Hrun].
  destruct (queue_inv_in_flight w0 s Hinv Hm) as [r Er]; [lia|].
  destruct (Hrun r) as (_ & _ & _ & _ & Hfate); [rewrite Er; left|].
  assert (Hshow : displayable (fate r) = true).
  { apply (Hall (queueTurn s)); [lia|done]. }
  destruct (advance_shown w0 s r Hinv Er Hshow) as (s' & Hon & Hinv' & Hm' & Hq' & _).
  unfold next. rewrite Er, Hon. apply IH; [done|done|lia].
Qed.

Lemma displayable_all_settled (ps : list Promise) :
  Forall (fun p => displayable p = true) ps -> Forall (fun p => is_settled p = true) ps.
Proof.
  intros H. eapply Forall_impl; [exact H|]. intros p. apply displayable_settled.
Qed.

(** In every state of the queue, a test that has been started was started
    after the test before it had settled. *)
Lemma queue_inv_order (w0 : K) (s : AppState) (k : nat) h1 h2 :
  queue_inv registry w0 s ->
  1 <= k ->
  history s = h1 ++ Started k :: h2 ->
  exists p, is_settled p = true /\ Settled (k - 1) p ∈ h1.
Proof.
  intros Hinv Hk Heq.
  destruct (in_sequence (take (queueTurn s) registry) w0) as [ps w] eqn:Eseq.
  destruct (queue_inv_length w0 s ps w Hinv Eseq) as [_ Hps].
  unfold queue_inv in Hinv. rewrite Eseq in Hinv.
  destruct Hinv as (Hshown & Hinv). apply displayable_all_settled in Hshown.
  assert (Hsplit : forall last h2',
            is_settled last = true ->
            sequential_history 0 (ps ++ [last]) = h1 ++ Started k :: h2' ->
            exists p, is_settled p = true /\ Settled (k - 1) p ∈ h1).
  { intros last h2' Hlast Hext.
    destruct (started_after_settled 0 k _ h1 _ Hext) as (p' & Hin & Hin'); [lia|].
    exists p'. split; [|done].
    assert (Hall : Forall (fun p => is_settled p = true) (ps ++ [last])).
    { apply Forall_app. split; [done|by constructor]. }
    rewrite Forall_forall in Hall. by apply Hall. }
  destruct (mounted s).
  - destruct Hinv as (_ & Hinv).
    destruct (registry !! queueTurn s) as [props|] eqn:Eq.
    + destruct (test props w) as [p w']. destruct Hinv as (_ & _ & Hh).
      apply (Hsplit (Fulfilled JUndefined)
               (h2 ++ [Settled (queueTurn s) (Fulfilled JUndefined)])); [done|].
      rewrite sequential_history_snoc. cbn [Nat.add]. rewrite Hps.
      change (?a :: h2 ++ ?l) with ((a :: h2) ++ l).
      rewrite (app_assoc h1), <- Heq, Hh, <- app_assoc. done.
    + destruct Hinv as (_ & _ & _ & Hh). rewrite Hh in Heq.
      destruct (started_after_settled 0 k ps h1 h2 Heq) as (p' & Hin & Hin'); [lia|].
      exists p'. split; [|done]. rewrite Forall_forall in Hshown. by apply Hshown.
  - destruct Hinv as (_ & _ & props & x & _ & _ & _ & _ & Hh).
    apply (Hsplit (Rejected x) h2); [done|].
    rewrite sequential_history_snoc. cbn [Nat.add]. rewrite Hps, <- Heq, Hh. done.
Qed.

Lemma outcomes_app (h1 h2 : list QueueEvent) :
  outcomes (h1 ++ h2) = outcomes h1 ++ outcomes h2.
Proof. unfold outcomes. apply omap_app. Qed.

Lemma started_bound (a k : nat) (ps : list Promise) :
  Started k ∈ sequential_history a ps -> a <= k < a + length ps.
Proof.
  revert a. induction ps as [|p ps IH]; intros a; cbn.
  - intros H. inversion H.
  - intros H. apply elem_of_cons in H as [[= ->]|H]; [lia|].
    apply elem_of_cons in H as [H|H]; [discriminate|].
    apply IH in H. lia.
Qed.

Lemma started_le_turn (w0 : K) (s : AppState) (k : nat) :
  queue_inv registry w0 s -> Started k ∈ history s -> k <= queueTurn s.
Proof.
  intros Hinv Hin.
  destruct (in_sequence (take (queueTurn s) registry) w0) as [ps w] eqn:Eseq.
  destruct (queue_inv_length w0 s ps w Hinv Eseq) as [_ Hps].
  unfold queue_inv in Hinv. rewrite Eseq in Hinv. destruct Hinv as (_ & Hinv).
  destruct (mounted s).
  - destruct Hinv as (_ & Hinv). destruct (registry !! queueTurn s) as [props|].
    + destruct (test props w) as [p w']. destruct Hinv as (_ & _ & Hh).
      rewrite Hh in Hin. apply elem_of_app in Hin as [Hin|Hin].
      * apply started_bound in Hin. lia.
      * apply list_elem_of_singleton in Hin. injection Hin as ->. lia.
    + destruct Hinv as (_ & _ & _ & Hh). rewrite Hh in Hin.
      apply started_bound in Hin. lia.
  - destruct Hinv as (_ & _ & props & x & _ & _ & _ & _ & Hh).
    rewrite Hh in Hin. apply elem_of_app in Hin as [Hin|Hin].
    + apply started_bound in Hin. lia.
    + apply elem_of_cons in Hin as [[= ->]|Hin]; [lia|].
      apply list_elem_of_singleton in Hin. discriminate.
Qed.

(** The outcomes recorded so far: those of the tests before the turn, and
    on the unmounted page the rejection that unmounted it. *)
Lemma queue_inv_outcomes (w0 : K) (s : AppState) :
  queue_inv registry w0 s ->
  length (outcomes (history s)) = (if mounted s then queueTurn s else S (queueTurn s)) /\
  map fst (outcomes (history s)) =
    seq 0 (if mounted s then queueTurn s else S (queueTurn s)).
Proof.
  intros Hinv.
  destruct (in_sequence (take (queueTurn s) registry) w0) as [ps w] eqn:Eseq.
  destruct (queue_inv_length w0 s ps w Hinv Eseq) as [_ Hps].
  unfold queue_inv in Hinv. rewrite Eseq in Hinv. destruct Hinv as (_ & Hinv).
  assert (Hzip : forall (l : list Promise) n, length l = n ->
            length (zip (seq 0 n) l) = n /\ map fst (zip (seq 0 n) l) = seq 0 n).
  { intros l n Hl. split.
    - rewrite length_zip, length_seq. lia.
    - apply fst_zip. rewrite length_seq. lia. }
  destruct (mounted s).
  - destruct Hinv as (_ & Hinv).
    assert (Hout : outcomes (history s) = zip (seq 0 (queueTurn s)) ps).
    { destruct (registry !! queueTurn s) as [props|].
      - destruct (test props w) as [p w']. destruct Hinv as (_ & _ & ->).
        rewrite outcomes_app, outcomes_sequential, Hps. cbn. by rewrite app_nil_r.
      - destruct Hinv as (_ & _ & _ & ->). by rewrite outcomes_sequential, Hps. }
    rewrite Hout. by apply Hzip.
  - destruct Hinv as (_ & _ & props & x & _ & _ & _ & _ & Hh).
    assert (Hout : outcomes (history s) =
              zip (seq 0 (S (queueTurn s))) (ps ++ [Rejected x])).
    { replace (sequential_history 0 ps ++ [Started (queueTurn s);
                 Settled (queueTurn s) (Rejected x)])
        with (sequential_history 0 (ps ++ [Rejected x])) in Hh.
      - rewrite Hh, outcomes_sequential, length_app. cbn.
        by replace (length ps + 1) with (S (queueTurn s)) by lia.
      - rewrite sequential_history_snoc. cbn [Nat.add]. by rewrite Hps. }
    rewrite Hout. apply Hzip. rewrite length_app. cbn. lia.
Qed.

(** The cards of a mounted page: results before the turn, "test is
    running" at the turn, "test is waiting" after it. *)
Lemma reachable_cards (w0 : K) (s : AppState) (k : nat) :
  reachable registry w0 s -> mounted s = true -> k < length registry ->
  cards s !! k =
    Some (if decide (k < queueTurn s)
          then shown (default Pending ((in_sequence registry w0).1 !! k))
          else if decide (k = queueTurn s) then card_running else card_waiting).
Proof.
  intros Hs. revert k. induction Hs as [|s s' Hs IH Hstep]; intros k Hm Hk.
  - rewrite mount_turn. unfold mount. rewrite run_effects_spec.
    cbn [queueTurn cards session].
    assert (Hmap : forall j, j < length registry ->
              map (fun _ : @TestCardValue K => card_waiting) registry !! j
              = Some card_waiting).
    { intros j Hj. rewrite list_lookup_fmap.
      destruct (lookup_lt_is_Some_2 registry j Hj) as [c ->]. done. }
    destruct (registry !! 0) as [props|] eqn:E0.
    + destruct (test props w0) as [p w']. cbn [cards].
      destruct (decide (k = 0)) as [->|Hne].
      * rewrite list_lookup_insert_eq by (rewrite length_map; lia). done.
      * rewrite list_lookup_insert_ne by done. rewrite Hmap by done.
        repeat case_decide; (done || lia).
    + apply lookup_ge_None in E0. lia.
  - pose proof (reachable_inv w0 s Hs) as Hinv.
    destruct (step_cases w0 s s' Hinv Hstep)
      as (r & Er & Hms & Hset & Hon & _ & [Hgo|Hcrash]); cycle 1.
    { destruct Hcrash as (x & _ & _ & Hm' & _). congruence. }
    destruct Hgo as (_ & _ & Hq & _ & Hcards).
    destruct (queue_inv_running w0 s Hinv) as [_ Hr].
    destruct (Hr r) as (_ & _ & _ & Hlt & Hfate); [rewrite Er; left|].
    assert (Hlen : length (cards s) = length registry).
    { unfold queue_inv in Hinv. rewrite Hms in Hinv.
      destruct (in_sequence (take (queueTurn s) registry) w0).
      by destruct Hinv as (_ & ? & _). }
    rewrite Hcards, Hq.
    assert (Hins : <[queueTurn s := shown (fate r)]> (cards s) !! k =
              Some (if decide (k < S (queueTurn s))
                    then shown (default Pending ((in_sequence registry w0).1 !! k))
                    else card_waiting)).
    { destruct (decide (k = queueTurn s)) as [->|Hne].
      - rewrite list_lookup_insert_eq by lia. rewrite Hfate.
        repeat case_decide; (done || lia).
      - rewrite list_lookup_insert_ne by done. rewrite IH by done.
        repeat case_decide; (done || lia). }
    destruct (decide (S (queueTurn s) < length registry)) as [Hnext|Hlast].
    + destruct (decide (k = S (queueTurn s))) as [->|Hne].
      * rewrite list_lookup_insert_eq by (rewrite length_insert; lia).
        repeat case_decide; (done || lia).
      * rewrite list_lookup_insert_ne by done. rewrite Hins.
        repeat case_decide; (done || lia).
    + rewrite Hins. repeat case_decide; (done || lia).
Qed.

(** The promises of the tests before the turn, as the sequence of all
    tests has them, can be shown. *)
Lemma queue_inv_shown (w0 : K) (s : AppState) (k : nat) (p : Promise) :
  queue_inv registry w0 s -> k < queueTurn s ->
  (in_sequence registry w0).1 !! k = Some p -> displayable p = true.
Proof.
  intros Hinv Hlt Ep.
  destruct (in_sequence (take (queueTurn s) registry) w0) as [ps w] eqn:Eseq.
  destruct (queue_inv_length w0 s ps w Hinv Eseq) as [Hle Hps].
  assert (Hpk : ps !! k = Some p).
  { rewrite <- (take_drop (queueTurn s) registry) in Ep.
    rewrite in_sequence_app, Eseq in Ep.
    destruct (in_sequence (drop (queueTurn s) registry) w) as [ps2 w2]. cbn in Ep.
    by rewrite lookup_app_l in Ep by lia. }
  unfold queue_inv in Hinv. rewrite Eseq in Hinv. destruct Hinv as (Hall & _).
  rewrite Forall_lookup in Hall. by apply (Hall k).
Qed.

End QueueFacts.

(** ** The sequential test messages *)

Section SequentialMessages.

Context {K : Type} (k : kernel.Kernel K).

Lemma after_messages_shift (n : nat) (w : K) :
  after_messages (S n) w = after_messages n (kernel.testMessage w).2.
Proof. unfold after_messages. by rewrite Nat.iter_succ_r. Qed.

(** While the messages are fulfilled the recursion goes on to the end. *)
Lemma send_all (n : nat) (w : K) :
  (forall i, i < n -> is_fulfilled (kernel.testMessage (after_messages i w)).1 = true) ->
  sendSequentialMessages n w =
  (Fulfilled (JStr "all messages resolved"), after_messages n w).
Proof.
  revert w. induction n as [|n IH]; intros w Hall; [done|].
  cbn [sendSequentialMessages]. pose proof (Hall 0 ltac:(lia)) as H0. cbn in H0.
  rewrite after_messages_shift.
  destruct (kernel.testMessage w) as [p w'] eqn:Em. cbn in *.
  destruct p; try discriminate. apply IH. intros i Hi.
  specialize (Hall (S i) ltac:(lia)). by rewrite after_messages_shift, Em in Hall.
Qed.

(** The first rejected message ends the recursion. *)
Lemma send_stops (n i : nat) (w : K) (x : JsVal) :
  i < n ->
  (forall j, j < i -> is_fulfilled (kernel.testMessage (after_messages j w)).1 = true) ->
  (kernel.testMessage (after_messages i w)).1 = Rejected x ->
  sendSequentialMessages n w = (Rejected x, after_messages (S i) w).
Proof.
  revert i w. induction n as [|n IH]; intros i w Hi Hall Hrej; [lia|].
  cbn [sendSequentialMessages]. destruct i as [|i].
  - cbn in *. destruct (kernel.testMessage w) as [p w']. cbn in *. by subst p.
  - pose proof (Hall 0 ltac:(lia)) as H0. cbn in H0.
    rewrite (after_messages_shift (S i)).
    rewrite after_messages_shift in Hrej.
    destruct (kernel.testMessage w) as [p w'] eqn:Em. cbn in *.
    destruct p; try discriminate. apply IH; [lia| |done]. intros j Hj.
    specialize (Hall (S j) ltac:(lia)). by rewrite after_messages_shift, Em in Hall.
Qed.

End SequentialMessages.

Section CountedMessages.

Context {K : Type} (k : kernel.Kernel K).

Lemma counting_message (w : K) (c : nat) :
  @kernel.testMessage _ (counting k) (w, c) =
  ((kernel.testMessage w).1, ((kernel.testMessage w).2, S c)).
Proof. cbn. by destruct (kernel.testMessage w). Qed.

Lemma counting_after (n : nat) (w : K) (c : nat) :
  @after_messages _ (counting k) n (w, c) = (after_messages n w, c + n).
Proof.
  revert w c. induction n as [|n IH]; intros w c.
  - cbn. by rewrite Nat.add_0_r.
  - rewrite !after_messages_shift, counting_message. cbn [snd].
    rewrite IH. by replace (S c + n) with (c + S n) by lia.
Qed.

Lemma counting_fate (n : nat) (w : K) (c : nat) :
  (@kernel.testMessage _ (counting k) (@after_messages _ (counting k) n (w, c))).1 =
  (kernel.testMessage (after_messages n w)).1.
Proof. by rewrite counting_after, counting_message. Qed.

(** C9. When each of the 5000 test messages is fulfilled, each sent on the
    session the one before it left, [TestMsgSpeedSequential5k] resolves,
    and it has sent 5000 messages, no more and no fewer. *)
Theorem sequential_5k_resolves_after_5000 (w : K) :
  (forall i, i < 5000 ->
     is_fulfilled (kernel.testMessage (after_messages i w)).1 = true) ->
  TestMsgSpeedSequential5k w =
    (Fulfilled (JStr "all messages resolved"), after_messages 5000 w) /\
  @TestMsgSpeedSequential5k _ (counting k) (w, 0) =
    (Fulfilled (JStr "all messages resolved"), (after_messages 5000 w, 5000)).
Proof.
  intros Hall. unfold TestMsgSpeedSequential5k. split; [by apply send_all|].
  rewrite send_all, counting_after; [done|].
  intros i Hi. rewrite counting_fate. by apply Hall.
Qed.

(** C10. When the [i]-th test message is the first one rejected,
    [TestMsgSpeedSequential5k] rejects with the reason of that message,
    and it has sent [i] messages: none of the other [5000 - i]. *)
Theorem sequential_5k_stops_at_first_rejection (w : K) (i : nat) (x : JsVal) :
  1 <= i <= 5000 ->
  (forall j, j < i - 1 ->
     is_fulfilled (kernel.testMessage (after_messages j w)).1 = true) ->
  (kernel.testMessage (after_messages (i - 1) w)).1 = Rejected x ->
  TestMsgSpeedSequential5k w = (Rejected x, after_messages i w) /\
  @TestMsgSpeedSequential5k _ (counting k) (w, 0) =
    (Rejected x, (after_messages i w, i)).
Proof.
  intros Hi Hall Hrej. unfold TestMsgSpeedSequential5k.
  destruct i as [|i]; [lia|]. replace (S i - 1) with i in * by lia. split.
  - apply send_stops; [lia|done..].
  - rewrite (send_stops _ _ i _ x), counting_after; [done|lia| |].
    + intros j Hj. rewrite counting_fate. by apply Hall.
    + by rewrite counting_fate.
Qed.

End CountedMessages.

(** ** [TestResponseUpdates] *)

Section ResponseUpdates.

Context {K : Type} {k : kernel.Kernel K}.

Lemma counts_up_le (p : Z) (values : list (option Z)) :
  counts_up p values -> (p <= 75)%Z.
Proof.
  revert p. induction values as [|v rest IH]; intros p; cbn; [lia|].
  intros [_ H]. apply IH in H. lia.
Qed.

Lemma counts_up_from_0 (values : list (option Z)) :
  counts_up 0 values <-> values = [Some 25; Some 50; Some 75]%Z.
Proof.
  split.
  - destruct values as [|a [|b [|c [|d rest]]]]; cbn; try lia.
    + intros (-> & -> & -> & _). done.
    + intros (_ & _ & _ & _ & H). apply counts_up_le in H. lia.
  - intros ->. cbn. done.
Qed.

Lemma eventProgress_in (data : JsVal) (n : Z) :
  eventProgress data = Some n ->
  is_object data = true /\ js_in "eventProgress" data = Normal true /\
  js_get "eventProgress" data = Normal (JNum n).
Proof.
  unfold eventProgress. destruct data; cbn; try discriminate.
  destruct (assoc "eventProgress" fields) as [v|]; cbn; [|discriminate].
  destruct v; try discriminate. intros [= ->]. done.
Qed.

Lemma not_object_throws (data : JsVal) :
  is_object data = false -> exists e, js_in "eventProgress" data = Throw e.
Proof. destruct data; cbn; try discriminate; eauto. Qed.

Lemma object_in (data : JsVal) :
  is_object data = true -> exists b, js_in "eventProgress" data = Normal b.
Proof. destruct data; cbn; try discriminate; eauto. Qed.

Lemma object_get (data : JsVal) :
  is_object data = true -> exists v, js_get "eventProgress" data = Normal v.
Proof. destruct data; cbn; try discriminate; eauto. Qed.

Lemma in_false_no_progress (data : JsVal) :
  js_in "eventProgress" data = Normal false -> eventProgress data = None.
Proof.
  intros Hin. destruct (eventProgress data) as [n|] eqn:E; [|done].
  apply eventProgress_in in E as (_ & Hin' & _). congruence.
Qed.

Lemma strict_eq_num_progress (data v : JsVal) (n : Z) :
  js_get "eventProgress" data = Normal v ->
  strict_eq_num v n = true <-> eventProgress data = Some n.
Proof.
  intros Hget. unfold eventProgress. rewrite Hget.
  destruct v; cbn; split; try discriminate.
  - intros H%Z.eqb_eq. by subst.
  - intros [= ->]. apply Z.eqb_refl.
Qed.

(** A frame that is not an object changes nothing. *)
Lemma receiveUpdate_skip (st : UpdateState) (data : JsVal) :
  is_object data = false -> receiveUpdate st data = st.
Proof.
  intros H. destruct (not_object_throws data H) as [e He].
  unfold receiveUpdate. by rewrite He.
Qed.

(** A frame with the expected progress moves the counter. *)
Lemma receiveUpdate_next (st : UpdateState) (data : JsVal) :
  eventProgress data = Some (progress st + 25)%Z ->
  receiveUpdate st data =
  {| progress := progress st + 25; query_settled := query_settled st;
     outcome := outcome st |}.
Proof.
  intros H. pose proof H as H'. apply eventProgress_in in H' as (_ & Hin & Hget).
  unfold receiveUpdate. rewrite Hin, Hget. cbn. by rewrite Z.eqb_refl.
Qed.

(** Any other object rejects the test. *)
Lemma receiveUpdate_reject (st : UpdateState) (data : JsVal) :
  is_object data = true ->
  eventProgress data <> Some (progress st + 25)%Z ->
  outcome st = Pending ->
  exists e, outcome (receiveUpdate st data) = Rejected e.
Proof.
  intros Hobj Hne Hpend. unfold receiveUpdate.
  destruct (object_in data Hobj) as [b Hin]. rewrite Hin.
  destruct b; cycle 1.
  { unfold settle_once. rewrite Hpend. cbn. eauto. }
  destruct (object_get data Hobj) as [v Hget]. rewrite Hget.
  destruct (strict_eq_num v (progress st + 25)) eqn:E.
  - apply (strict_eq_num_progress data v _ Hget) in E. done.
  - cbn. unfold settle_once. rewrite Hpend. cbn. eauto.
Qed.

(** A settled test stays as it is, whatever comes later. *)
Lemma on_event_settled (st : UpdateState) (ev : QueryEvent) :
  outcome st <> Pending -> outcome (on_event st ev) = outcome st.
Proof.
  intros Hset.
  assert (Hso : forall s, settle_once st s = st).
  { intros s. unfold settle_once. by destruct (outcome st). }
  destruct ev as [data|data|err]; cbn.
  - unfold receiveUpdate.
    destruct (js_in "eventProgress" data) as [[|]|]; [|by rewrite Hso|done].
    destruct (js_get "eventProgress" data) as [v|]; [|done].
    destruct (negb _); [by rewrite Hso|done].
  - destruct (query_settled st); [done|].
    destruct (query_then st data); unfold close_query; by rewrite Hso.
  - destruct (query_settled st); [done|]. unfold close_query. by rewrite Hso.
Qed.

Lemma run_settled (events : list QueryEvent) (st : UpdateState) :
  outcome st <> Pending -> outcome (fold_left on_event events st) = outcome st.
Proof.
  revert st. induction events as [|ev events IH]; intros st Hset; [done|].
  cbn. rewrite IH; rewrite on_event_settled; done.
Qed.

(** The response settles the test: with success exactly when the counter
    stands at 75 and the response carries 100. *)
Lemma response_settles (st : UpdateState) (data : JsVal) :
  outcome st = Pending -> query_settled st = false ->
  outcome (on_event st (QueryFulfilled data)) <> Pending /\
  (outcome (on_event st (QueryFulfilled data)) = Fulfilled all_in_order <->
   progress st = 75%Z /\ eventProgress data = Some 100%Z).
Proof.
  intros Hpend Hopen. cbn. rewrite Hopen. unfold query_then.
  destruct (Z.eqb_spec (progress st) 75) as [Hp|Hp]; cbn; cycle 1.
  { unfold settle_once. rewrite Hpend. cbn. split; [done|]. split; [done|tauto]. }
  destruct (is_object data) eqn:Hobj; cycle 1.
  { destruct (not_object_throws data Hobj) as [e He]. rewrite He. cbn.
    unfold settle_once. rewrite Hpend. cbn. split; [done|]. split; [done|].
    intros [_ H]. apply eventProgress_in in H. destruct H as [H _]. congruence. }
  destruct (object_in data Hobj) as [b Hin]. rewrite Hin. cbn.
  destruct b; cbn; cycle 1.
  { unfold settle_once. rewrite Hpend. cbn. split; [done|]. split; [done|].
    intros [_ H]. apply in_false_no_progress in Hin. congruence. }
  destruct (object_get data Hobj) as [v Hget]. rewrite Hget. cbn.
  destruct (strict_eq_num v 100) eqn:E; cbn; unfold settle_once; rewrite Hpend; cbn.
  - split; [done|]. split; [|done]. intros _. split; [done|].
    by apply (strict_eq_num_progress data v _ Hget).
  - split; [done|]. split; [done|]. intros [_ H].
    apply (strict_eq_num_progress data v _ Hget) in H. congruence.
Qed.

(** What a run of events must look like for the test to succeed, from a
    state in which nothing has settled yet. *)
Lemma run_accepts (events : list QueryEvent) (st : UpdateState) :
  outcome st = Pending -> query_settled st = false ->
  outcome (fold_left on_event events st) = Fulfilled all_in_order <->
  exists pre d late frames,
    events = pre ++ QueryFulfilled d :: late /\
    updates_only pre = Some frames /\
    counts_up (progress st) (map eventProgress (List.filter is_object frames)) /\
    eventProgress d = Some 100%Z.
Proof.
  revert st. induction events as [|ev events IH]; intros st Hpend Hopen.
  { cbn. rewrite Hpend. split; [discriminate|].
    intros (pre & d & late & frames & Heq & _). by destruct pre. }
  cbn [fold_left]. destruct ev as [data|data|err].
  - cbn [on_event]. destruct (is_object data) eqn:Hobj; cycle 1.
    { rewrite receiveUpdate_skip by done. rewrite (IH st Hpend Hopen). split.
      - intros (pre & d & late & frames & -> & Hup & Hcount & Hd).
        exists (ResponseUpdate data :: pre), d, late, (data :: frames).
        cbn. rewrite Hup, Hobj. done.
      - intros (pre & d & late & frames & Heq & Hup & Hcount & Hd).
        destruct pre as [|e0 pre]; cbn in Heq; [discriminate|].
        injection Heq as <- ->. cbn in Hup.
        destruct (updates_only pre) as [frames0|] eqn:Hup0; [|discriminate].
        injection Hup as <-. cbn in Hcount. rewrite Hobj in Hcount.
        exists pre, d, late, frames0. done. }
    destruct (decide (eventProgress data = Some (progress st + 25)%Z)) as [Hev|Hev].
    + rewrite receiveUpdate_next by done. rewrite IH by done. cbn [progress]. split.
      * intros (pre & d & late & frames & -> & Hup & Hcount & Hd).
        exists (ResponseUpdate data :: pre), d, late, (data :: frames).
        cbn. rewrite Hup, Hobj. cbn. done.
      * intros (pre & d & late & frames & Heq & Hup & Hcount & Hd).
        destruct pre as [|e0 pre]; cbn in Heq; [discriminate|].
        injection Heq as <- ->. cbn in Hup.
        destruct (updates_only pre) as [frames0|] eqn:Hup0; [|discriminate].
        injection Hup as <-. cbn in Hcount. rewrite Hobj in Hcount.
        cbn in Hcount. destruct Hcount as [_ Hcount].
        exists pre, d, late, frames0. done.
    + destruct (receiveUpdate_reject st data Hobj Hev Hpend) as [e He].
      rewrite run_settled by congruence. rewrite He. split; [discriminate|].
      intros (pre & d & late & frames & Heq & Hup & Hcount & Hd).
      destruct pre as [|e0 pre]; cbn in Heq; [discriminate|].
      injection Heq as <- ->. cbn in Hup.
      destruct (updates_only pre) as [frames0|]; [|discriminate].
      injection Hup as <-. cbn in Hcount. rewrite Hobj in Hcount.
      cbn in Hcount. by destruct Hcount.
  - destruct (response_settles st data Hpend Hopen) as [Hset Hiff].
    rewrite run_settled by done. rewrite Hiff. split.
    + intros [Hp Hd]. exists [], data, events, []. done.
    + intros (pre & d & late & frames & Heq & Hup & Hcount & Hd).
      destruct pre as [|e0 pre]; cbn in Heq.
      * injection Heq as -> ->. cbn in Hup. injection Hup as <-. done.
      * injection Heq as <- ->. discriminate.
  - rewrite run_settled; cbn; rewrite Hopen; unfold close_query, settle_once;
      rewrite Hpend; cbn; [|discriminate].
    split; [discriminate|].
    intros (pre & d & late & frames & Heq & Hup & _).
    destruct pre as [|e0 pre]; cbn in Heq; [discriminate|].
    injection Heq as <- ->. discriminate.
Qed.

(** C3, as the page has it.  [TestResponseUpdates] succeeds exactly when the
    frames handed to [receiveUpdate] before the response of the query, those
    of them that are objects, carry the progress values 25, 50, 75, in that
    order, and the response then carries 100.  A response that comes before
    the third of these frames, a frame out of order and a frame without a
    progress value each make the test fail.  What comes after the response
    is not looked at, and a frame that is not an object makes
    [receiveUpdate] throw and is passed over. *)
Theorem responseUpdates_in_order_before_response (w : K) :
  let events :=
    (kernel.connectModule kernelTestSuite (JStr "testResponseUpdate") (JObj []) w).1 in
  (TestResponseUpdates w).1 = Fulfilled all_in_order <->
  exists pre d late frames,
    events = pre ++ QueryFulfilled d :: late /\
    updates_only pre = Some frames /\
    map eventProgress (List.filter is_object frames) = [Some 25; Some 50; Some 75]%Z /\
    eventProgress d = Some 100%Z.
Proof.
  intros events. unfold TestResponseUpdates. subst events.
  destruct (kernel.connectModule _ _ _ w) as [events w']. cbn [fst].
  unfold responseUpdates_run. rewrite run_accepts by done. cbn [progress].
  split; intros (pre & d & late & frames & Heq & Hup & Hcount & Hd);
    exists pre, d, late, frames; (split; [done|]; split; [done|]; split; [|done]);
    by apply counts_up_from_0.
Qed.

End ResponseUpdates.

(** ** [TestSecureUploadAndDownload] *)

Section UploadDownload.

Context {K : Type} {k : kernel.Kernel K} {page : window.Browser}.

Lemma strict_eq_num_true (v : JsVal) (n : Z) :
  strict_eq_num v n = true <-> v = JNum n.
Proof.
  destruct v; cbn; split; try discriminate.
  - intros H%Z.eqb_eq. by subst.
  - intros [= ->]. apply Z.eqb_refl.
Qed.

Lemma byte_num_inj (a b : byte) : byte_num a = byte_num b -> a = b.
Proof.
  unfold byte_num. intros [= H%N2Z.inj].
  pose proof (Byte.of_to_N a) as Ha. rewrite H, Byte.of_to_N in Ha. congruence.
Qed.

(** The loop finds no difference exactly when every index it visits holds
    the same number in both arrays. *)
Lemma differs_from_false (rest : list byte) (i : nat) (fileDataDown : JsVal) :
  differs_from rest i fileDataDown = Normal false <->
  forall j b, rest !! j = Some b -> js_index fileDataDown (i + j) = Normal (byte_num b).
Proof.
  revert i. induction rest as [|b0 rest IH]; intros i; cbn [differs_from].
  { split; [intros _ j b Hj; done|done]. }
  split.
  - intros Hd j b Hj.
    destruct (js_index fileDataDown i) as [d|e] eqn:Ed; [|discriminate]. cbn in Hd.
    destruct (strict_eq_num d (Z.of_N (Byte.to_N b0))) eqn:Es; [|discriminate].
    cbn in Hd. apply strict_eq_num_true in Es as ->.
    destruct j as [|j]; cbn in Hj.
    + injection Hj as <-. by rewrite Nat.add_0_r.
    + replace (i + S j) with (S i + j) by lia. by apply (proj1 (IH (S i))).
  - intros Hall. pose proof (Hall 0 b0 eq_refl) as H0. rewrite Nat.add_0_r in H0.
    rewrite H0. cbn. unfold byte_num. cbn. rewrite Z.eqb_refl. cbn.
    apply IH. intros j b Hj. replace (S i + j) with (i + S j) by lia. by apply Hall.
Qed.

(** The [then] callback of the download resolves exactly when the
    downloaded value has the length of the uploaded bytes and the same
    number at every index. *)
Lemma download_then_resolves (fileDataUp : list byte) (skylink fileDataDown : JsVal)
    (v : JsVal) :
  download_then fileDataUp skylink fileDataDown = Normal (Resolve v) <->
  v = skylink /\
  js_get "length" fileDataDown = Normal (JNum (Z.of_nat (length fileDataUp))) /\
  forall i b, fileDataUp !! i = Some b -> js_index fileDataDown i = Normal (byte_num b).
Proof.
  unfold download_then.
  destruct (js_get "length" fileDataDown) as [len|e] eqn:El; cbn.
  2: { split; [discriminate|]. intros (_ & H & _). discriminate. }
  destruct (strict_eq_num len (Z.of_nat (length fileDataUp))) eqn:Es; cbn.
  2: { split; [discriminate|]. intros (_ & [= ->] & _).
       cbn in Es. by rewrite Z.eqb_refl in Es. }
  apply strict_eq_num_true in Es as ->.
  pose proof (differs_from_false fileDataUp 0 fileDataDown) as Hd. cbn in Hd.
  destruct (differs_from fileDataUp 0 fileDataDown) as [[|]|e]; cbn.
  - split; [discriminate|]. intros (_ & _ & H). apply Hd in H. discriminate.
  - split.
    + intros [= <-]. split; [done|]. split; [done|]. by apply Hd.
    + intros (-> & _). done.
  - split; [discriminate|]. intros (_ & _ & H). apply Hd in H. discriminate.
Qed.

Lemma download_then_bytes (fileDataUp bs : list byte) (skylink : JsVal) :
  download_then fileDataUp skylink (JBytes bs) = Normal (Resolve skylink) <->
  bs = fileDataUp.
Proof.
  rewrite download_then_resolves. cbn. split.
  - intros (_ & [= Hlen%Nat2Z.inj] & Hall). apply list_eq. intros i.
    destruct (fileDataUp !! i) as [b|] eqn:Eb.
    + specialize (Hall i b Eb). destruct (bs !! i) as [b'|]; cbn in Hall.
      * injection Hall as Hb. f_equal. apply byte_num_inj. unfold byte_num. by f_equal.
      * discriminate.
    + apply lookup_ge_None in Eb. apply lookup_ge_None. lia.
  - intros ->. split; [done|]. split; [done|]. intros i b ->. done.
Qed.

(** The check for any file: it passes exactly when the upload yields a
    link and the download of that link yields a value that has the length
    of the uploaded bytes and the same number at every index. *)
Lemma uploadAndDownload_passes (name : string) (fileDataUp : list byte) (w : K) :
  (forall skylink,
     (uploadAndDownload name fileDataUp w).1 = Fulfilled skylink <->
     exists w1 fileDataDown,
       kernel.upload name fileDataUp w = (Fulfilled skylink, w1) /\
       (kernel.download skylink w1).1 = Fulfilled fileDataDown /\
       js_get "length" fileDataDown = Normal (JNum (Z.of_nat (length fileDataUp))) /\
       (forall i b, fileDataUp !! i = Some b ->
                    js_index fileDataDown i = Normal (byte_num b))) /\
  (forall skylink w1 bs,
     kernel.upload name fileDataUp w = (Fulfilled skylink, w1) ->
     (kernel.download skylink w1).1 = Fulfilled (JBytes bs) ->
     is_fulfilled (uploadAndDownload name fileDataUp w).1 = true <-> bs = fileDataUp) /\
  TestSecureUploadAndDownload =
    uploadAndDownload "testUpload.txt" (TextEncoder_encode "test data").
Proof.
  split; [|split; [|done]].
  - intros skylink. unfold uploadAndDownload, promise_of.
    destruct (kernel.upload name fileDataUp w) as [[link| |] w1] eqn:Eu; cbn.
    + destruct (kernel.download link w1) as [[down| |] w2] eqn:Ed; cbn.
      * pose proof (download_then_resolves fileDataUp link down skylink) as Hres.
        destruct (download_then fileDataUp link down) as [[v|e]|e] eqn:Et; cbn.
        -- split.
           ++ intros [= ->]. destruct (proj1 Hres eq_refl) as (-> & Hl & Hall).
              exists w1, down. rewrite Ed. done.
           ++ intros (w1' & down' & [= -> ->] & Hd & Hl & Hall).
              rewrite Ed in Hd. cbn in Hd. injection Hd as ->.
              f_equal. assert (H : Normal (Resolve v) = Normal (Resolve skylink));
                [|congruence]. apply Hres. done.
        -- split; [discriminate|].
           intros (w1' & down' & [= -> ->] & Hd & Hl & Hall).
           rewrite Ed in Hd. cbn in Hd. injection Hd as ->.
           assert (H : Normal (Reject e) = Normal (Resolve skylink)); [|discriminate].
           apply Hres. done.
        -- split; [discriminate|].
           intros (w1' & down' & [= -> ->] & Hd & Hl & Hall).
           rewrite Ed in Hd. cbn in Hd. injection Hd as ->.
           assert (H : Throw e = Normal (Resolve skylink)); [|discriminate].
           apply Hres. done.
      * split; [discriminate|]. intros (w1' & down' & [= -> ->] & Hd & _).
        rewrite Ed in Hd. discriminate.
      * split; [discriminate|]. intros (w1' & down' & [= -> ->] & Hd & _).
        rewrite Ed in Hd. discriminate.
    + split; [discriminate|]. intros (? & ? & [=] & _).
    + split; [discriminate|]. intros (? & ? & [=] & _).
  - intros skylink w1 bs Hu Hd. unfold uploadAndDownload, promise_of. rewrite Hu.
    destruct (kernel.download skylink w1) as [pd w2]. cbn in Hd. subst pd. cbn [fst then_catch].
    pose proof (download_then_bytes fileDataUp bs skylink) as Hb.
    destruct (download_then fileDataUp skylink (JBytes bs)) as [[v|e]|e] eqn:Et; cbn.
    + split; [intros _|done]. apply Hb.
      apply download_then_resolves in Et as (-> & _). done.
    + split; [discriminate|]. intros H. apply Hb in H. discriminate.
    + split; [discriminate|]. intros H. apply Hb in H. discriminate.
Qed.

(** C7, as the page has it.  [TestSecureUploadAndDownload] uploads one
    file, the nine bytes of "test data" under the name testUpload.txt, and
    succeeds exactly when the upload yields a link and the download of that
    link yields a value of length 9 with the same number at each of the
    nine indices; for a downloaded [Uint8Array], exactly when it is equal to
    the uploaded bytes.  No other name and no other sequence of bytes is
    tried. *)
Theorem test_data_round_trip (w : K) :
  let fileDataUp := TextEncoder_encode "test data" in
  (forall skylink,
     (TestSecureUploadAndDownload w).1 = Fulfilled skylink <->
     exists w1 fileDataDown,
       kernel.upload "testUpload.txt" fileDataUp w = (Fulfilled skylink, w1) /\
       (kernel.download skylink w1).1 = Fulfilled fileDataDown /\
       js_get "length" fileDataDown = Normal (JNum 9) /\
       (forall i b, fileDataUp !! i = Some b ->
                    js_index fileDataDown i = Normal (byte_num b))) /\
  (forall skylink w1 bs,
     kernel.upload "testUpload.txt" fileDataUp w = (Fulfilled skylink, w1) ->
     (kernel.download skylink w1).1 = Fulfilled (JBytes bs) ->
     is_fulfilled (TestSecureUploadAndDownload w).1 = true <-> bs = fileDataUp) /\
  (TestSecureUploadAndDownload w).2 =
    match kernel.upload "testUpload.txt" fileDataUp w with
    | (Fulfilled skylink, w1) => (kernel.download skylink w1).2
    | (_, w1) => w1
    end.
Proof.
  intros fileDataUp.
  destruct (uploadAndDownload_passes "testUpload.txt" fileDataUp w) as (Hiff & Hbytes & _).
  split; [exact Hiff|]. split; [exact Hbytes|].
  unfold TestSecureUploadAndDownload, uploadAndDownload, promise_of. fold fileDataUp.
  destruct (kernel.upload "testUpload.txt" fileDataUp w) as [[link|e|] w1]; [|done|done].
  by destruct (kernel.download link w1).
Qed.

End UploadDownload.

(** ** The tests of single calls *)

Section SingleCalls.

Context {K : Type} {k : kernel.Kernel K} {page : window.Browser}.

(** C6, as the page has it.  [TestModulePresentSeed] presents one seed to
    the test module, sixteen zero bytes; it succeeds exactly when the kernel
    rejects that call, with the reason of the rejection in its result, and
    it fails when the call is fulfilled.  No other seed is presented. *)
Theorem presentSeed_of_zeros_must_reject (w : K) :
  let call :=
    kernel.callModule kernelTestSuite (JStr "presentSeed")
      (JObj [("seed", JBytes (repeat x00 16))]) w in
  TestModulePresentSeed w =
    (match call.1 with
     | Rejected err => Fulfilled (js_concat "received expected error: " err)
     | Fulfilled _ => Rejected (JStr "expecting an error for using a forbidden method")
     | Pending => Pending
     end, call.2) /\
  (is_fulfilled (TestModulePresentSeed w).1 = true <-> exists err, call.1 = Rejected err).
Proof.
  intros call. subst call. unfold TestModulePresentSeed, presentSeed, promise_of.
  change (Uint8Array_new 16) with (repeat x00 16).
  destruct (kernel.callModule _ _ _ w) as [[data|err|] w']; cbn.
  - split; [done|]. split; [discriminate|]. by intros [? ?].
  - split; [done|]. split; [eauto|done].
  - split; [done|]. split; [discriminate|]. by intros [? ?].
Qed.

(** C4, as the page has it.  [TestModuleHasSeed] succeeds exactly when the
    answer to its [viewSeed] query has a [seed] whose [length] is 16; it
    sends this one query and compares the seed with no other. *)
Theorem viewSeed_has_length_16 (w : K) :
  let call := kernel.callModule kernelTestSuite (JStr "viewSeed") (JObj []) w in
  ((TestModuleHasSeed w).1 = Fulfilled standard_seed <->
   exists data seed,
     call.1 = Fulfilled data /\
     js_in "seed" data = Normal true /\
     js_get "seed" data = Normal seed /\
     js_get "length" seed = Normal (JNum 16)) /\
  (is_fulfilled (TestModuleHasSeed w).1 = true <->
   (TestModuleHasSeed w).1 = Fulfilled standard_seed) /\
  (TestModuleHasSeed w).2 = call.2.
Proof.
  intros call. subst call. unfold TestModuleHasSeed, promise_of.
  destruct (kernel.callModule _ _ _ w) as [[data|err|] w']; cbn [fst snd then_catch].
  2,3: split; [split; [discriminate|by intros (? & ? & ? & _)]|];
       split; [split; discriminate|done].
  destruct (js_in "seed" data) as [[|]|e] eqn:Ein; cbn.
  2,3: split; [split; [discriminate|by intros (? & ? & [= <-] & ? & _); congruence]|];
       split; [split; discriminate|done].
  destruct (js_get "seed" data) as [seed|e] eqn:Eseed; cbn.
  2: split; [split; [discriminate|by intros (? & ? & [= <-] & _ & ? & _); congruence]|];
     split; [split; discriminate|done].
  destruct (js_get "length" seed) as [len|e] eqn:Elen; cbn.
  2: { split; [split; [discriminate|]|split; [split; discriminate|done]].
       intros (? & ? & [= <-] & _ & Hs & Hl). congruence. }
  destruct (strict_eq_num len 16) eqn:Es; cbn.
  - apply strict_eq_num_true in Es as ->.
    split; [split; [intros _; by exists data, seed|done]|done].
  - split; [split; [discriminate|]|split; [split; discriminate|done]].
    intros (? & ? & [= <-] & _ & Hs & Hl). rewrite Eseed in Hs. injection Hs as <-.
    rewrite Elen in Hl. injection Hl as ->. cbn in Es. discriminate.
Qed.

(** C5, as the page has it.  The test of the module that does not exist
    and the test of the malformed module each succeed exactly when the
    kernel rejects the call, and each hands on the reason it was given;
    neither looks at the reason of the other.  The malformed identifier
    is one character short, the other has the length of a module
    identifier and names neither module of the page. *)
Theorem missing_and_malformed_must_reject (w w' : K) :
  let missing := kernel.callModule moduleDoesNotExist (JStr "viewSeed") (JObj []) w in
  let malformed := kernel.callModule moduleMalformed (JStr "viewSeed") (JObj []) w' in
  TestMissingModule w =
    (match missing.1 with
     | Rejected err => Fulfilled err
     | Fulfilled data =>
         Rejected (JStr ("kernel is supposed to return an error:"
                         ++ window.JSON_stringify data))
     | Pending => Pending
     end, missing.2) /\
  TestMalformedModule w' =
    (match malformed.1 with
     | Rejected err => Fulfilled err
     | Fulfilled _ => Rejected (JStr "kernel is supposed to return an error")
     | Pending => Pending
     end, malformed.2) /\
  String.length kernelTestSuite = 46 /\
  String.length moduleDoesNotExist = 46 /\
  String.length moduleMalformed = 45 /\
  moduleDoesNotExist <> kernelTestSuite /\
  moduleDoesNotExist <> helperModule.
Proof.
  intros missing malformed. subst missing malformed.
  unfold TestMissingModule, TestMalformedModule, promise_of.
  destruct (kernel.callModule moduleDoesNotExist _ _ w) as [[?|?|] ?];
    destruct (kernel.callModule moduleMalformed _ _ w') as [[?|?|] ?];
    cbn; repeat split; done.
Qed.

(** C8, as the page has it.  [TestMirrorDomain] succeeds exactly when the
    domain the test module reports for the call of the page is a string
    equal to [window.location.hostname]; it sends this one call, to the
    test module itself. *)
Theorem mirrorDomain_is_the_hostname (w : K) :
  let call := kernel.callModule kernelTestSuite (JStr "mirrorDomain") (JObj []) w in
  (forall v,
     (TestMirrorDomain w).1 = Fulfilled v <->
     v = JStr ("got expected domain: " ++ hostname window.location) /\
     exists data,
       call.1 = Fulfilled data /\
       js_in "domain" data = Normal true /\
       js_get "domain" data = Normal (JStr (hostname window.location))) /\
  (TestMirrorDomain w).2 = call.2.
Proof.
  intros call. subst call. unfold TestMirrorDomain, promise_of.
  destruct (kernel.callModule _ _ _ w) as [[data|err|] w']; cbn [fst snd then_catch].
  2,3: split; [|done]; intros v; split; [discriminate|by intros (_ & ? & ? & _)].
  split; [|done]. intros v.
  destruct (js_in "domain" data) as [[|]|e] eqn:Ein; cbn.
  2,3: split; [discriminate|]; intros (_ & ? & [= <-] & ? & _); congruence.
  destruct (js_get "domain" data) as [domain|e] eqn:Edom; cbn.
  2: split; [discriminate|]; intros (_ & ? & [= <-] & _ & ?); congruence.
  destruct domain; cbn;
    try (split; [discriminate|]; intros (_ & ? & [= <-] & _ & ?); congruence).
  destruct (String.eqb_spec s (hostname window.location)) as [->|Hne]; cbn.
  - unfold js_concat. cbn. split.
    + intros [= <-]. split; [done|]. by exists data.
    + intros [-> _]. done.
  - split; [discriminate|]. intros (_ & ? & [= <-] & _ & ?). congruence.
Qed.

End SingleCalls.

(** ** The page against the stand-in kernels *)

Lemma faithful_passes : page_passes (mock.kernel_of mock.faithful) mock.page mock.start.
Proof. unfold page_passes. vm_compute. repeat constructor. Qed.

Lemma sloppy_passes : page_passes (mock.kernel_of mock.sloppy) mock.page mock.start.
Proof. unfold page_passes. vm_compute. repeat constructor. Qed.

(** ** The queue when a test rejects with an [Error] *)

(** C1, on the kernel that answers [viewSeed] with a seed that is [null].
    Each of the 22 tests of the page settles when it is called, the third,
    [TestModuleHasSeed], with the [TypeError] that reading [length] of
    [null] throws.  The run of the page does not reach the end of the
    registry: the third card is handed the [Error] to show, the page is
    unmounted, and the run ends with three terminal outcomes, the turn at 2,
    no card left and none of the 19 tests behind ever started. *)
Theorem unrenderable_rejection_ends_the_run :
  let registry := variant.seedless_cards in
  let final := run registry 22 (mount registry mock.start) in
  length registry = 22 /\
  Forall (fun p => is_settled p = true) (in_sequence registry mock.start).1 /\
  (exists message,
     (in_sequence registry mock.start).1 !! 2 = Some (Rejected (JError "TypeError" message))) /\
  next registry final = None /\
  mounted final = false /\
  cards final = [] /\
  queueTurn final = 2 /\
  map fst (outcomes (history final)) = [0; 1; 2] /\
  forall spot, 3 <= spot -> Started spot ∉ history final.
Proof.
  intros registry final.
  split; [reflexivity|].
  split; [vm_compute; repeat constructor|].
  split; [eexists; vm_compute; reflexivity|].
  split; [vm_compute; reflexivity|].
  split; [vm_compute; reflexivity|].
  split; [vm_compute; reflexivity|].
  split; [vm_compute; reflexivity|].
  split; [vm_compute; reflexivity|].
  intros spot Hspot Hin.
  assert (Hle : spot <= queueTurn final).
  { eapply started_le_turn; [|exact Hin].
    apply run_inv, mount_inv. }
  assert (Hturn : queueTurn final = 2) by (vm_compute; reflexivity).
  lia.
Qed.

(** C2, on the same kernel.  After two settlements the page is at turn 2
    with [TestModuleHasSeed] in flight, its promise rejected with a
    [TypeError].  That promise can settle, and when it does the turn is
    still 2, the page is unmounted with no card left, the test at spot 3 has
    not been started, and nothing is left to settle: the failure of the
    test keeps the next test from starting. *)
Theorem rejection_with_an_error_starts_no_next_test :
  let registry := variant.seedless_cards in
  let s := run registry 2 (mount registry mock.start) in
  reachable registry mock.start s /\
  queueTurn s = 2 /\
  mounted s = true /\
  (exists message,
     running s = [{| run_spot := 2; run_turn := 2;
                     fate := Rejected (JError "TypeError" message) |}]) /\
  (exists s', step registry s s') /\
  forall s', step registry s s' ->
    queueTurn s' = 2 /\
    mounted s' = false /\
    cards s' = [] /\
    running s' = [] /\
    (Started 3 ∉ history s') /\
    forall s'', ~ step registry s' s''.
Proof.
  intros registry s.
  assert (Hreach : reachable registry mock.start s)
    by apply run_reachable, reachable_mount.
  split; [exact Hreach|].
  split; [vm_compute; reflexivity|].
  split; [vm_compute; reflexivity|].
  split; [eexists; vm_compute; reflexivity|].
  split.
  { destruct (next registry s) as [s'|] eqn:Hnext.
    - exists s'. by apply next_step.
    - vm_compute in Hnext. discriminate Hnext. }
  intros s' Hstep.
  apply (step_next registry mock.start) in Hstep; [|by apply reachable_inv].
  vm_compute in Hstep. injection Hstep as <-.
  split; [reflexivity|]. split; [reflexivity|]. split; [reflexivity|].
  split; [reflexivity|].
  split.
  - intros Hin. cbn in Hin. rewrite !elem_of_cons, elem_of_nil in Hin.
    intuition discriminate.
  - intros s'' (i & r & Hr & _). cbn in Hr. by rewrite lookup_nil in Hr.
Qed.

(** ** The test methods on the stand-in kernels *)

(** The frames of the faithful stand-in are the ones the test succeeds on. *)
Lemma responseUpdates_in_order_before_response_witness :
  (@TestResponseUpdates _ (mock.kernel_of mock.faithful) mock.start).1
  = Fulfilled all_in_order.
Proof.
  apply (proj2 (@responseUpdates_in_order_before_response _
                  (mock.kernel_of mock.faithful) mock.start)).
  exists [ResponseUpdate (mock.frame 25); ResponseUpdate (mock.frame 50);
          ResponseUpdate (mock.frame 75)],
    (mock.frame 100), [], [mock.frame 25; mock.frame 50; mock.frame 75].
  repeat split; reflexivity.
Defined.

(** The response before the third frame, and a frame after the response. *)
Example response_too_early :
  outcome (responseUpdates_run (k := mock.kernel_of mock.faithful)
             [ResponseUpdate (mock.frame 25); ResponseUpdate (mock.frame 50);
              QueryFulfilled (mock.frame 100); ResponseUpdate (mock.frame 75)])
  = Rejected (JStr "response was received before responseUpdates were completed").
Proof. reflexivity. Qed.

Example frames_out_of_order :
  outcome (responseUpdates_run (k := mock.kernel_of mock.faithful)
             [ResponseUpdate (mock.frame 50); ResponseUpdate (mock.frame 25);
              ResponseUpdate (mock.frame 75); QueryFulfilled (mock.frame 100)])
  = Rejected (JStr "progress messages appear to be arriving out of order").
Proof. reflexivity. Qed.

(** A frame that is no object is passed over: [receiveUpdate] throws on
    its [in] before it has touched [progress] or the promise. *)
Example frame_that_is_no_object_is_passed_over :
  outcome (responseUpdates_run (k := mock.kernel_of mock.faithful)
             [ResponseUpdate (mock.frame 25); ResponseUpdate (JStr "keepalive");
              ResponseUpdate (mock.frame 50); ResponseUpdate (mock.frame 75);
              QueryFulfilled (mock.frame 100)])
  = Fulfilled all_in_order.
Proof. reflexivity. Qed.

Lemma chatty_passes : page_passes variant.chatty mock.page mock.start.
Proof. unfold page_passes. vm_compute. repeat constructor. Qed.

(** A query that sends one more progress frame after its response passes
    the test: the promise of the test is settled by then, and the [reject]
    of [receiveUpdate] changes nothing. *)
Lemma frames_after_the_response_are_not_checked :
  ~ (forall (K : Type) (k : kernel.Kernel K) (w : K),
       (TestResponseUpdates w).1 = Fulfilled all_in_order ->
       exists d1 d2 d3 d,
         (kernel.connectModule kernelTestSuite (JStr "testResponseUpdate") (JObj []) w).1
           = [ResponseUpdate d1; ResponseUpdate d2; ResponseUpdate d3; QueryFulfilled d] /\
         eventProgress d1 = Some 25%Z /\ eventProgress d2 = Some 50%Z /\
         eventProgress d3 = Some 75%Z /\ eventProgress d = Some 100%Z).
Proof.
  intros H.
  destruct (H _ variant.chatty mock.start eq_refl) as (d1 & d2 & d3 & d & Heq & _).
  vm_compute in Heq. discriminate Heq.
Qed.

(** The careless stand-in passes every test of the page, and yet two seed
    queries in a row are answered with two seeds. *)
Lemma seed_not_compared_across_queries :
  ~ (forall (K : Type) (k : kernel.Kernel K) (page : window.Browser) (w : K),
       page_passes k page w ->
       let viewSeed := kernel.callModule kernelTestSuite (JStr "viewSeed") (JObj []) in
       (viewSeed w).1 = (viewSeed (viewSeed w).2).1).
Proof.
  intros H.
  specialize (H _ (mock.kernel_of mock.sloppy) mock.page mock.start sloppy_passes).
  vm_compute in H. discriminate H.
Qed.

Lemma viewSeed_has_length_16_witness :
  (@TestModuleHasSeed _ (mock.kernel_of mock.sloppy) mock.start).1 = Fulfilled standard_seed.
Proof.
  apply (proj1 (@viewSeed_has_length_16 _ (mock.kernel_of mock.sloppy) mock.start)).
  exists (JObj [("seed", JBytes (repeat x2a 16))]), (JBytes (repeat x2a 16)).
  repeat split; reflexivity.
Defined.

(** The careless stand-in passes every test of the page, and gives the same
    reason for the module that does not exist and for the malformed one. *)
Lemma rejection_reasons_not_compared :
  ~ (forall (K : Type) (k : kernel.Kernel K) (page : window.Browser) (w : K) e1 e2,
       page_passes k page w ->
       (@TestMissingModule _ k page w).1 = Fulfilled e1 ->
       (@TestMalformedModule _ k w).1 = Fulfilled e2 ->
       e1 <> e2).
Proof.
  intros H.
  apply (H _ (mock.kernel_of mock.sloppy) mock.page mock.start
           (JStr "module could not be loaded") (JStr "module could not be loaded")
           sloppy_passes); reflexivity.
Qed.

Lemma missing_and_malformed_must_reject_witness :
  (@TestMissingModule _ (mock.kernel_of mock.faithful) mock.page mock.start).1
    = Fulfilled (JStr "module not found") /\
  (@TestMalformedModule _ (mock.kernel_of mock.faithful) mock.start).1
    = Fulfilled (JStr "malformed module identifier").
Proof.
  destruct (@missing_and_malformed_must_reject _ (mock.kernel_of mock.faithful) mock.page
              mock.start mock.start) as (Hmissing & Hmalformed & _).
  rewrite Hmissing, Hmalformed. split; reflexivity.
Defined.

Lemma presentSeed_of_zeros_must_reject_witness :
  (@TestModulePresentSeed _ (mock.kernel_of mock.faithful) mock.start).1
  = Fulfilled (JStr "received expected error: presentSeed is a forbidden method").
Proof.
  destruct (@presentSeed_of_zeros_must_reject _ (mock.kernel_of mock.faithful)
              mock.start) as (Heq & _).
  rewrite Heq. reflexivity.
Defined.

Lemma picky_passes : page_passes variant.picky mock.page mock.start.
Proof. unfold page_passes. vm_compute. repeat constructor. Qed.

(** A kernel that refuses the seed of zero bytes and takes any other passes
    every test of the page. *)
Lemma other_seeds_are_not_presented :
  ~ (forall (K : Type) (k : kernel.Kernel K) (page : window.Browser) (w : K)
            (fakeSeed : list byte),
       page_passes k page w ->
       exists err,
         (kernel.callModule kernelTestSuite (JStr "presentSeed")
            (JObj [("seed", JBytes fakeSeed)]) w).1 = Rejected err).
Proof.
  intros H.
  destruct (H _ variant.picky mock.page mock.start (repeat x01 16) picky_passes)
    as [err Herr].
  vm_compute in Herr. discriminate Herr.
Qed.

(** On the faithful stand-in the file of the page goes up and comes down. *)
Lemma test_data_round_trip_witness :
  is_fulfilled (@TestSecureUploadAndDownload _ (mock.kernel_of mock.faithful) mock.page
                  mock.start).1 = true.
Proof.
  destruct (@test_data_round_trip _ (mock.kernel_of mock.faithful) mock.page mock.start)
    as (_ & Hbytes & _).
  apply (proj2 (Hbytes (JStr "testUpload.txt") _ (TextEncoder_encode "test data")
                  eq_refl eq_refl)).
  reflexivity.
Defined.

Lemma lossy_passes : page_passes variant.lossy mock.page mock.start.
Proof. unfold page_passes. vm_compute. repeat constructor. Qed.

(** A kernel that gives back only the file of the page as it was passes
    every test of the page: the empty file comes down with a byte in it. *)
Lemma other_files_are_not_tried :
  ~ (forall (K : Type) (k : kernel.Kernel K) (page : window.Browser) (w : K)
            (name : string) (bytes : list byte) skylink w1 fileDataDown,
       page_passes k page w ->
       kernel.upload name bytes w = (Fulfilled skylink, w1) ->
       (kernel.download skylink w1).1 = Fulfilled fileDataDown ->
       fileDataDown = JBytes bytes).
Proof.
  intros H.
  specialize (H _ variant.lossy mock.page mock.start "f.txt" [] _ _ _
                lossy_passes eq_refl eq_refl).
  vm_compute in H. discriminate H.
Qed.

(** A download that lost a byte, and one that changed a byte. *)
Example download_too_short (skylink : JsVal) :
  @download_then mock.page (TextEncoder_encode "test data") skylink
    (JBytes (TextEncoder_encode "test dat"))
  <> Normal (Resolve skylink).
Proof. discriminate. Qed.

Example download_changed (skylink : JsVal) :
  @download_then mock.page (TextEncoder_encode "test data") skylink
    (JBytes (TextEncoder_encode "test dato"))
  <> Normal (Resolve skylink).
Proof. discriminate. Qed.

(** On a page served from https://kernel.test the test wants the domain
    "kernel.test", which is not the origin of the page; and the careless
    stand-in passes every test of the page although, for a call relayed by
    the test module, it reports the test module and not the page. *)
Lemma domain_is_not_the_origin_nor_kept_across_a_hop :
  ~ (forall (K : Type) (k : kernel.Kernel K) (page : window.Browser) (w : K) data,
       page_passes k page w ->
       (kernel.callModule kernelTestSuite (JStr "mirrorDomain") (JObj []) w).1
         = Fulfilled data ->
       js_get "domain" data = Normal (JStr (origin window.location))) /\
  ~ (forall (K : Type) (k : kernel.Kernel K) (page : window.Browser) (w : K)
            direct relayed,
       page_passes k page w ->
       (kernel.callModule kernelTestSuite (JStr "mirrorDomain") (JObj []) w).1
         = Fulfilled direct ->
       (kernel.callModule kernelTestSuite (JStr "testerMirrorDomain") (JObj []) w).1
         = Fulfilled relayed ->
       js_get "domain" relayed = js_get "domain" direct).
Proof.
  split; intros H.
  - specialize (H _ (mock.kernel_of mock.faithful) mock.page mock.start _
                  faithful_passes eq_refl).
    vm_compute in H. discriminate H.
  - specialize (H _ (mock.kernel_of mock.sloppy) mock.page mock.start _ _
                  sloppy_passes eq_refl eq_refl).
    vm_compute in H. discriminate H.
Qed.

Lemma mirrorDomain_is_the_hostname_witness :
  (@TestMirrorDomain _ (mock.kernel_of mock.faithful) mock.page mock.start).1
  = Fulfilled (JStr "got expected domain: kernel.test").
Proof.
  destruct (@mirrorDomain_is_the_hostname _ (mock.kernel_of mock.faithful) mock.page
              mock.start) as [Hiff _].
  apply (proj2 (Hiff _)). split; [reflexivity|].
  exists (JObj [("domain", JStr "kernel.test")]). repeat split; reflexivity.
Defined.

(** All 5000 messages answered: 5000 sent. *)
Lemma sequential_5k_resolves_after_5000_witness :
  (forall i, i < 5000 ->
     is_fulfilled (@kernel.testMessage _ (mock.kernel_of mock.faithful)
                     (@after_messages _ (mock.kernel_of mock.faithful) i mock.start)).1
     = true) /\
  @TestMsgSpeedSequential5k _ (counting (mock.kernel_of mock.faithful)) (mock.start, 0)
  = (Fulfilled (JStr "all messages resolved"),
     (@after_messages _ (mock.kernel_of mock.faithful) 5000 mock.start, 5000)).
Proof.
  assert (H : forall i, i < 5000 ->
     is_fulfilled (@kernel.testMessage _ (mock.kernel_of mock.faithful)
                     (@after_messages _ (mock.kernel_of mock.faithful) i mock.start)).1
     = true) by (intros i _; reflexivity).
  split; [exact H|].
  exact (proj2 (sequential_5k_resolves_after_5000 (mock.kernel_of mock.faithful)
                  mock.start H)).
Defined.

(** The eighth message rejected: eight sent, and the test rejected with the
    reason of the eighth. *)
Lemma sequential_5k_stops_at_first_rejection_witness :
  1 <= 8 <= 5000 /\
  @TestMsgSpeedSequential5k _ (counting (mock.kernel_of (mock.failing_at 7)))
    (mock.start, 0)
  = (Rejected (JStr "the kernel did not answer"),
     (@after_messages _ (mock.kernel_of (mock.failing_at 7)) 8 mock.start, 8)).
Proof.
  split; [lia|].
  refine (proj2 (sequential_5k_stops_at_first_rejection
                   (mock.kernel_of (mock.failing_at 7)) mock.start 8
                   (JStr "the kernel did not answer") _ _ _)).
  - lia.
  - intros j Hj. do 7 (destruct j as [|j]; [reflexivity|]). cbn in Hj. lia.
  - reflexivity.
Defined.

(** * More about the page *)

(** ** The queue: what is reachable, what the cards show, stalls *)

Section QueueMore.

Context {K : Type} (registry : list (@TestCardValue K)).

(** X1. The states the page can reach, whichever promise settles when, are
    the states of [run]: from a reachable state there is at most one way
    on, and any number of steps is [run] with that much fuel. *)
Theorem reachable_iff_run (w0 : K) (s : AppState) :
  (reachable registry w0 s <-> exists fuel, s = run registry fuel (mount registry w0)) /\
  (reachable registry w0 s ->
   forall s1 s2, step registry s s1 -> step registry s s2 -> s1 = s2).
Proof.
  split; [split|].
  - induction 1 as [|s s' Hs [fuel ->] Hstep]; [by exists 0|].
    exists (S fuel). rewrite run_snoc.
    by rewrite (step_next registry w0 _ s' (reachable_inv registry w0 _ Hs) Hstep).
  - intros [fuel ->]. apply run_reachable. constructor.
  - intros Hs s1 s2 H1 H2. pose proof (reachable_inv registry w0 s Hs) as Hinv.
    apply (step_next registry w0 _ _ Hinv) in H1, H2. congruence.
Qed.

Lemma unmounted_at_rejection (w0 : K) (s : AppState) :
  queue_inv registry w0 s -> mounted s = false ->
  queueTurn s < length registry /\ cards s = [] /\ running s = [] /\
  exists x, renderable x = false /\
            (in_sequence registry w0).1 !! queueTurn s = Some (Rejected x).
Proof.
  intros Hinv Hm. unfold queue_inv in Hinv. rewrite Hm in Hinv.
  destruct (in_sequence (take (queueTurn s) registry) w0) as [ps w] eqn:Eseq.
  destruct Hinv as (_ & Hc & Hr & props & x & Hq & Hrej & Hren & _).
  split; [by apply lookup_lt_Some in Hq|]. split; [done|]. split; [done|].
  exists x. split; [done|].
  by rewrite (in_sequence_lookup registry w0 _ props ps w Hq Eseq), Hrej.
Qed.

Lemma no_step_when_idle (s : AppState) :
  running s = [] -> forall s', ~ step registry s s'.
Proof. intros Hr s' (i & r & Hi & _). by rewrite Hr, lookup_nil in Hi. Qed.

Lemma mounted_at_end (w0 : K) (s : AppState) :
  queue_inv registry w0 s -> mounted s = true ->
  length (cards s) = length registry /\
  (queueTurn s = length registry -> running s = []).
Proof.
  intros Hinv Hm. unfold queue_inv in Hinv. rewrite Hm in Hinv.
  destruct (in_sequence (take (queueTurn s) registry) w0) as [ps w].
  destruct Hinv as (_ & Hc & Hinv). split; [done|]. intros Hq.
  rewrite (proj2 (lookup_ge_None registry (queueTurn s))) in Hinv by lia.
  by destruct Hinv as (_ & Hr & _).
Qed.

(** X2. In every state the page can reach [queueTurn] never exceeds the
    number of tests, and the tests that have settled are those at the first
    positions, in order.  While the page is mounted, [queueTurn] is the
    number of tests that have settled and there is a card for every test;
    once it has reached the number of tests nothing is in flight and
    nothing more can happen.  The page is unmounted only at the turn of a
    test that was rejected with a reason that cannot be rendered: that test
    has settled too, no card and no test in flight is left, and nothing
    more can happen. *)
Theorem turn_counts_settled_tests (w0 : K) (s : AppState) :
  reachable registry w0 s ->
  queueTurn s <= length registry /\
  map fst (outcomes (history s)) = seq 0 (length (outcomes (history s))) /\
  (mounted s = true ->
     length (cards s) = length registry /\
     length (outcomes (history s)) = queueTurn s /\
     (queueTurn s = length registry ->
      running s = [] /\ forall s', ~ step registry s s')) /\
  (mounted s = false ->
     queueTurn s < length registry /\
     cards s = [] /\
     running s = [] /\
     length (outcomes (history s)) = S (queueTurn s) /\
     (exists x, renderable x = false /\
                (in_sequence registry w0).1 !! queueTurn s = Some (Rejected x)) /\
     forall s', ~ step registry s s').
Proof.
  intros Hs. pose proof (reachable_inv registry w0 s Hs) as Hinv.
  destruct (queue_inv_outcomes registry w0 s Hinv) as [Hlen Hmap].
  split; [|split; [|split]].
  - destruct (in_sequence (take (queueTurn s) registry) w0) as [ps w] eqn:Eseq.
    by destruct (queue_inv_length registry w0 s ps w Hinv Eseq).
  - by rewrite Hmap, Hlen.
  - intros Hm. destruct (mounted_at_end w0 s Hinv Hm) as [Hc Hend].
    rewrite Hm in Hlen. split; [done|]. split; [done|].
    intros Hq. split; [by apply Hend|]. by apply no_step_when_idle, Hend.
  - intros Hm. destruct (unmounted_at_rejection w0 s Hinv Hm) as (Hq & Hc & Hr & Hx).
    rewrite Hm in Hlen. repeat (split; [done|]). by apply no_step_when_idle.
Qed.

(** X3. What the cards show in any state the page can reach with the page
    still mounted: the card of a test that has settled shows
    "test success: " followed by the value, on green, when its promise was
    fulfilled, and the reason of the rejection, a value that can be
    rendered, on red, when it was rejected; the card of the test in flight
    shows "test is running"; every later card still shows
    "test is waiting". *)
Theorem cards_show_the_queue (w0 : K) (s : AppState) (k : nat) :
  reachable registry w0 s -> mounted s = true -> k < length registry ->
  (k < queueTurn s ->
     exists p, (in_sequence registry w0).1 !! k = Some p /\
       match p with
       | Fulfilled x =>
           cards s !! k =
           Some {| testStatus := js_concat "test success: " x;
                   statusColor := "rgba(0, 80, 0, 0.6)" |}
       | Rejected x =>
           renderable x = true /\
           cards s !! k =
           Some {| testStatus := x; statusColor := "rgba(255, 0, 0, 0.6)" |}
       | Pending => False
       end) /\
  (k = queueTurn s ->
     cards s !! k = Some {| testStatus := JStr "test is running";
                            statusColor := "rgba(255, 165, 0, 0.6)" |}) /\
  (queueTurn s < k ->
     cards s !! k = Some {| testStatus := JStr "test is waiting";
                            statusColor := "rgba(60, 60, 60, 0.6)" |}).
Proof.
  intros Hs Hm Hk. pose proof (reachable_cards registry w0 s k Hs Hm Hk) as Hc.
  split; [|split].
  - intros Hlt. case_decide; [|lia].
    pose proof (in_sequence_length registry w0) as Hlen.
    destruct ((in_sequence registry w0).1 !! k) as [p|] eqn:Ep; cycle 1.
    { apply lookup_ge_None in Ep. lia. }
    exists p. split; [done|]. cbn in Hc.
    pose proof (reachable_inv registry w0 s Hs) as Hinv.
    pose proof (queue_inv_shown registry w0 s k p Hinv Hlt Ep) as Hshown.
    destruct p; [done|done|discriminate].
  - intros ->. repeat case_decide; (done || lia).
  - intros Hgt. repeat case_decide; (done || lia).
Qed.

Lemma pending_blocks (w0 : K) (s : AppState) :
  queue_inv registry w0 s ->
  (in_sequence registry w0).1 !! queueTurn s = Some Pending ->
  forall s', ~ step registry s s'.
Proof.
  intros Hinv Hpend s' Hstep.
  destruct (step_cases registry w0 s s' Hinv Hstep) as (r & Er & _ & Hset & _).
  destruct (queue_inv_running registry w0 s Hinv) as [_ Hr].
  destruct (Hr r) as (_ & _ & _ & _ & Hfate); [rewrite Er; left|].
  rewrite Hpend in Hfate. injection Hfate as Hfate. by rewrite <- Hfate in Hset.
Qed.

(** X4. A test that never settles stalls the queue for good: when the
    promise of the test at position [q] stays pending, [queueTurn] never
    goes beyond [q] in any state the page can reach, no test after [q] is
    ever started, and at turn [q] there is no way on. *)
Theorem pending_test_stalls_the_queue (w0 : K) (q : nat) (s : AppState) :
  (in_sequence registry w0).1 !! q = Some Pending ->
  reachable registry w0 s ->
  queueTurn s <= q /\
  (forall k, q < k -> Started k ∉ history s) /\
  (queueTurn s = q -> forall s', ~ step registry s s').
Proof.
  intros Hpend Hs. pose proof (reachable_inv registry w0 s Hs) as Hinv.
  assert (Hle : queueTurn s <= q).
  { destruct (decide (queueTurn s <= q)) as [|Hgt]; [done|].
    assert (Hlt : q < queueTurn s) by lia.
    by pose proof (queue_inv_shown registry w0 s q Pending Hinv Hlt Hpend). }
  split; [done|]. split.
  - intros k Hk Hin. apply (started_le_turn registry w0) in Hin; [lia|done].
  - intros Heq. rewrite <- Heq in Hpend. by apply (pending_blocks w0).
Qed.

(** X5. When the tests before position [q] settle with results the page
    can show and the test at [q] never settles, the page gets to turn [q]
    after [q] settlements and stays there whatever more fuel it is given:
    still mounted, [q] outcomes, the test at [q] in flight, its card
    showing "test is running". *)
Theorem queue_stops_at_first_pending (w0 : K) (q fuel : nat) :
  (in_sequence registry w0).1 !! q = Some Pending ->
  (forall j p, j < q -> (in_sequence registry w0).1 !! j = Some p ->
               displayable p = true) ->
  q <= fuel ->
  let s := run registry fuel (mount registry w0) in
  s = run registry q (mount registry w0) /\
  mounted s = true /\
  queueTurn s = q /\
  next registry s = None /\
  length (outcomes (history s)) = q /\
  (exists r, running s = [r] /\ run_spot r = q /\ fate r = Pending) /\
  cards s !! q = Some card_running.
Proof.
  intros Hpend Hall Hfuel s.
  pose proof (in_sequence_length registry w0) as Hlen.
  apply lookup_lt_Some in Hpend as Hq. rewrite Hlen in Hq.
  set (sq := run registry q (mount registry w0)).
  pose proof (run_inv registry w0 q _ (mount_inv registry w0)) as Hinv. fold sq in Hinv.
  assert (Hturn : queueTurn sq = q /\ mounted sq = true).
  { apply (run_up_to registry w0);
      [done|lia|apply mount_inv|apply mount_mounted|by rewrite mount_turn]. }
  destruct Hturn as [Hturn Hm].
  assert (Hreach : reachable registry w0 sq) by (apply run_reachable; constructor).
  destruct (queue_inv_running registry w0 sq Hinv) as [Hone Hrun].
  destruct (queue_inv_in_flight registry w0 sq Hinv Hm) as [r Er]; [lia|].
  destruct (Hrun r) as (_ & Hspot & _ & _ & Hfate); [rewrite Er; left|].
  rewrite Hturn, Hpend in Hfate. injection Hfate as Hfate.
  assert (Hnext : next registry sq = None).
  { unfold next, on_settled. rewrite Er, Hm, <- Hfate. done. }
  assert (Hs : s = sq).
  { subst s. replace fuel with (q + (fuel - q)) by lia. rewrite run_add.
    by apply run_stuck. }
  rewrite Hs. split; [done|]. split; [done|]. split; [done|]. split; [done|].
  destruct (queue_inv_outcomes registry w0 sq Hinv) as [Hout _]. rewrite Hm in Hout.
  split; [by rewrite Hout|]. split; [exists r; by rewrite Hspot, Hturn|].
  rewrite (reachable_cards registry w0 sq q Hreach Hm) by lia.
  repeat case_decide; (done || lia).
Qed.

(** X18. The page starts the registered tests in registration order, one
    at a time: in every state it can reach at most one test is in flight,
    and the card at position [k] has started its test only after the test
    at position [k - 1] had settled.  When every test settles with a
    result the page can show, a fulfilment or a rejection with a reason
    that can be rendered, the run ends, the page still mounted, with one
    terminal outcome per test, in registration order, and with [queueTurn]
    equal to the number of tests. *)
Theorem tests_start_in_order_and_end_when_shown (w0 : K) :
  (forall s, reachable registry w0 s ->
     length (running s) <= 1 /\
     forall k h1 h2, 1 <= k -> history s = h1 ++ Started k :: h2 ->
       exists p, is_settled p = true /\ Settled (k - 1) p ∈ h1) /\
  (Forall (fun p => displayable p = true) (in_sequence registry w0).1 ->
   let N := length registry in
   let final := run registry N (mount registry w0) in
   reachable registry w0 final /\
   mounted final = true /\
   queueTurn final = N /\
   running final = [] /\
   next registry final = None /\
   session final = (in_sequence registry w0).2 /\
   history final = sequential_history 0 (in_sequence registry w0).1 /\
   outcomes (history final) = zip (seq 0 N) (in_sequence registry w0).1 /\
   length (outcomes (history final)) = N /\
   (forall k, k < N -> Started k ∈ history final)).
Proof.
  split.
  { intros s Hs. pose proof (reachable_inv registry w0 s Hs) as Hinv. split.
    - by destruct (queue_inv_running registry w0 s Hinv).
    - intros k h1 h2 Hk Heq. by apply (queue_inv_order registry w0 s k h1 h2). }
  intros Hall N final.
  assert (Hturn : queueTurn final = N /\ mounted final = true).
  { apply (run_up_to registry w0);
      [|done|apply mount_inv|apply mount_mounted|by rewrite mount_turn].
    intros j p _ Hj. rewrite Forall_lookup in Hall. by apply (Hall j). }
  destruct Hturn as [Hturn Hm].
  pose proof (run_inv registry w0 N _ (mount_inv registry w0)) as Hinv. fold final in Hinv.
  pose proof (in_sequence_length registry w0) as Hlen.
  unfold queue_inv in Hinv. rewrite Hturn, Hm in Hinv. subst N.
  rewrite take_ge in Hinv by lia.
  destruct (in_sequence registry w0) as [ps w] eqn:Eseq. cbn [fst snd] in *.
  destruct Hinv as (_ & _ & Hinv).
  rewrite (proj2 (lookup_ge_None registry (length registry))) in Hinv by lia.
  destruct Hinv as (_ & Hrun & Hses & Hhist).
  assert (Hout : outcomes (history final) = zip (seq 0 (length registry)) ps).
  { rewrite Hhist, outcomes_sequential, Hlen. done. }
  split; [apply run_reachable; constructor|].
  repeat split; try done.
  - unfold next. by rewrite Hrun.
  - rewrite Hout, length_zip, length_seq. lia.
  - intros k Hk. rewrite Hhist. apply started_in_sequential. lia.
Qed.

(** X19. [queueTurn] starts at 0.  In every state the page can reach at
    most one test is in flight, and it is the test whose position is
    [queueTurn]; the turn changes only when that test settles, and then by
    exactly one.  It does so when the promise is fulfilled and when it is
    rejected with a reason that can be rendered, after which the next
    card, if there is one, has started its test.  When the promise is
    rejected with a reason that cannot be rendered, the turn stays, the
    page is unmounted, and nothing more can happen. *)
Theorem queue_turn_advances_when_shown (w0 : K) (s : AppState) :
  reachable registry w0 s ->
  queueTurn (mount registry w0) = 0 /\
  length (running s) <= 1 /\
  (forall r, r ∈ running s -> run_spot r = queueTurn s) /\
  (forall s', step registry s s' ->
     exists r, running s = [r] /\ is_settled (fate r) = true /\
               Settled (queueTurn s) (fate r) ∈ history s' /\
               queueTurn s' =
                 (if displayable (fate r) then S (queueTurn s) else queueTurn s) /\
               mounted s' = displayable (fate r)) /\
  (forall r, running s = [r] -> displayable (fate r) = true ->
     exists s', step registry s s' /\
                mounted s' = true /\
                queueTurn s' = S (queueTurn s) /\
                (S (queueTurn s) < length registry ->
                 exists r', running s' = [r'] /\ run_spot r' = S (queueTurn s))) /\
  (forall r x, running s = [r] -> fate r = Rejected x -> renderable x = false ->
     exists s', step registry s s' /\
                mounted s' = false /\
                queueTurn s' = queueTurn s /\
                cards s' = [] /\
                running s' = [] /\
                forall s'', ~ step registry s' s'').
Proof.
  intros Hreach. pose proof (reachable_inv registry w0 s Hreach) as Hinv.
  destruct (queue_inv_running registry w0 s Hinv) as [Hlen Hrun].
  split; [apply mount_turn|]. split; [done|]. split; [|split; [|split]].
  - intros r Hr. by destruct (Hrun r Hr) as (_ & ? & _).
  - intros s' Hstep.
    destruct (step_cases registry w0 s s' Hinv Hstep)
      as (r & Er & _ & Hset & _ & _ & Hcase).
    exists r. split; [done|]. split; [done|].
    destruct Hcase as [(Hd & Hm & Hq & Hh & _)|(x & Hx & Hren & Hm & Hq & _ & _ & Hh)].
    + rewrite Hd. split; [|done]. rewrite Hh. apply elem_of_app. right. left.
    + rewrite Hx. cbn. rewrite Hren. split; [|done].
      rewrite Hh. apply elem_of_app. right. left.
  - intros r Er Hd.
    destruct (advance_shown registry w0 s r Hinv Er Hd)
      as (s' & Hon & Hinv' & Hm & Hq & _).
    exists s'. split; [exists 0, r; by rewrite Er|]. split; [done|]. split; [done|].
    intros Hlt. destruct (queue_inv_in_flight registry w0 s' Hinv' Hm) as [r' Er']; [lia|].
    exists r'. split; [done|].
    destruct (queue_inv_running registry w0 s' Hinv') as [_ Hrun'].
    destruct (Hrun' r') as (_ & Hspot & _); [rewrite Er'; left|]. by rewrite Hspot.
  - intros r x Er Hx Hren.
    destruct (advance_crash registry w0 s r x Hinv Er Hx Hren)
      as (s' & Hon & _ & Hm & Hq & Hr & Hc & _).
    exists s'. split; [exists 0, r; by rewrite Er|]. repeat (split; [done|]).
    by apply no_step_when_idle.
Qed.

Lemma run_to_rest (w0 : K) (fuel : nat) (s : AppState) :
  Forall (fun p => is_settled p = true) (in_sequence registry w0).1 ->
  queue_inv registry w0 s ->
  length registry <= queueTurn s + fuel ->
  running (run registry fuel s) = [].
Proof.
  intros Hall. revert s. induction fuel as [|fuel IH]; intros s Hinv Hfuel.
  - cbn. destruct (mounted s) eqn:Hm.
    + apply (mounted_at_end w0 s Hinv Hm).
      destruct (in_sequence (take (queueTurn s) registry) w0) as [ps w] eqn:Eseq.
      destruct (queue_inv_length registry w0 s ps w Hinv Eseq). lia.
    + by destruct (unmounted_at_rejection w0 s Hinv Hm) as (_ & _ & ? & _).
  - destruct (mounted s) eqn:Hm; cycle 1.
    { destruct (unmounted_at_rejection w0 s Hinv Hm) as (_ & _ & Hr & _).
      rewrite run_stuck; [done|]. unfold next. by rewrite Hr. }
    destruct (decide (queueTurn s < length registry)) as [Hlt|Hge]; cycle 1.
    { assert (Hr : running s = []).
      { apply (mounted_at_end w0 s Hinv Hm).
        destruct (in_sequence (take (queueTurn s) registry) w0) as [ps w] eqn:Eseq.
        destruct (queue_inv_length registry w0 s ps w Hinv Eseq). lia. }
      rewrite run_stuck; [done|]. unfold next. by rewrite Hr. }
    destruct (queue_inv_in_flight registry w0 s Hinv Hm Hlt) as [r Er].
    destruct (queue_inv_running registry w0 s Hinv) as [_ Hrun].
    destruct (Hrun r) as (_ & _ & _ & _ & Hfate); [rewrite Er; left|].
    rewrite Forall_lookup in Hall. pose proof (Hall _ _ Hfate) as Hset.
    destruct (settled_cases (fate r) Hset) as [Hd|(x & Hx & Hren)].
    + destruct (advance_shown registry w0 s r Hinv Er Hd)
        as (s' & Hon & Hinv' & _ & Hq & _).
      cbn. unfold next. rewrite Er, Hon. apply IH; [done|lia].
    + destruct (advance_crash registry w0 s r x Hinv Er Hx Hren)
        as (s' & Hon & _ & _ & _ & Hr & _).
      cbn. unfold next at 1. rewrite Er, Hon.
      rewrite run_stuck; [done|]. unfold next. by rewrite Hr.
Qed.

End QueueMore.

(** ** The test methods: when they settle *)

Section Settling.

Context {K : Type} {k : kernel.Kernel K} {page : window.Browser}.

Lemma then_catch_settled (p : Promise) on_then on_catch :
  is_settled (then_catch p on_then on_catch) = is_settled p.
Proof.
  destruct p as [v|e|]; cbn; [|by destruct (on_catch e)|done].
  destruct (on_then v) as [[?|?]|e]; cbn; [done|done|by destruct (on_catch e)].
Qed.

Lemma promise_of_settled (request : K -> Promise * K) on_then on_catch (w : K) :
  is_settled (promise_of request on_then on_catch w).1 = is_settled (request w).1.
Proof.
  unfold promise_of. destruct (request w) as [p w']. cbn. apply then_catch_settled.
Qed.

Lemma receiveUpdate_query (st : UpdateState) (data : JsVal) :
  query_settled (receiveUpdate st data) = query_settled st.
Proof.
  unfold receiveUpdate, settle_once.
  destruct (js_in "eventProgress" data) as [[|]|]; [|by destruct (outcome st)|done].
  destruct (js_get "eventProgress" data) as [v|]; [|done].
  destruct (negb _); [by destruct (outcome st)|done].
Qed.

Lemma receiveUpdate_not_fulfilled (st : UpdateState) (data : JsVal) :
  is_fulfilled (outcome st) = false ->
  is_fulfilled (outcome (receiveUpdate st data)) = false.
Proof.
  intros Hst. unfold receiveUpdate, settle_once.
  destruct (js_in "eventProgress" data) as [[|]|]; [| |done].
  - destruct (js_get "eventProgress" data) as [v|]; [|done].
    destruct (negb _); [|done].
    destruct (outcome st) eqn:E; cbn; rewrite ?E; done.
  - destruct (outcome st) eqn:E; cbn; rewrite ?E; done.
Qed.

Lemma close_query_settled (st : UpdateState) (s : Settle) :
  outcome (close_query st s) <> Pending.
Proof.
  unfold close_query, settle_once. cbn.
  destruct (outcome st) eqn:E; cbn; rewrite ?E; try done. by destruct s.
Qed.

Lemma on_event_open (st : UpdateState) (ev : QueryEvent) :
  open_while_pending st -> open_while_pending (on_event st ev).
Proof.
  unfold open_while_pending. intros Hst. destruct ev as [data|data|err]; cbn.
  - rewrite receiveUpdate_query. intros Hp. apply Hst.
    destruct (outcome st) eqn:E; [| |done];
      pose proof (on_event_settled st (ResponseUpdate data)) as Hs; cbn in Hs;
      rewrite Hs in Hp; congruence.
  - destruct (query_settled st) eqn:Eq.
    { intros Hp. specialize (Hst Hp). congruence. }
    destruct (query_then st data); intros Hp; by apply close_query_settled in Hp.
  - destruct (query_settled st) eqn:Eq.
    { intros Hp. specialize (Hst Hp). congruence. }
    intros Hp; by apply close_query_settled in Hp.
Qed.

Lemma run_open (events : list QueryEvent) (st : UpdateState) :
  open_while_pending st -> open_while_pending (fold_left on_event events st).
Proof.
  revert st. induction events as [|ev events IH]; intros st Hst; [done|].
  cbn. apply IH. by apply on_event_open.
Qed.

Lemma start_open : open_while_pending responseUpdates_start.
Proof. done. Qed.

Lemma run_has_terminal (events : list QueryEvent) (st : UpdateState) :
  open_while_pending st -> has_terminal events = true ->
  outcome (fold_left on_event events st) <> Pending.
Proof.
  revert st. induction events as [|ev events IH]; intros st Hst Hterm; [done|].
  cbn in *. apply orb_true_iff in Hterm as [Hev|Hrest].
  - assert (Hset : outcome (on_event st ev) <> Pending).
    { destruct (outcome st) eqn:E.
      - rewrite on_event_settled; congruence.
      - rewrite on_event_settled; congruence.
      - specialize (Hst E). destruct ev as [data|data|err]; [done| |]; cbn; rewrite Hst.
        + destruct (query_then st data); apply close_query_settled.
        + apply close_query_settled. }
    by rewrite run_settled.
  - apply IH; [by apply on_event_open|done].
Qed.

Lemma run_not_fulfilled (events : list QueryEvent) (st : UpdateState) :
  is_fulfilled (outcome st) = false ->
  (forall d, QueryFulfilled d ∉ events) ->
  is_fulfilled (outcome (fold_left on_event events st)) = false.
Proof.
  revert st. induction events as [|ev events IH]; intros st Hst Hno; [done|].
  cbn. apply IH.
  - destruct ev as [data|data|err]; cbn.
    + by apply receiveUpdate_not_fulfilled.
    + destruct (Hno data). left.
    + destruct (query_settled st); [done|]. unfold close_query, settle_once. cbn.
      destruct (outcome st) eqn:E; cbn; rewrite ?E; done.
  - intros d Hin. apply (Hno d). by right.
Qed.

(** X6. The promise of [TestResponseUpdates] settles once: when the events
    so far have settled it, whatever comes after them, frames or another
    settlement of the query, leaves its outcome as it is. *)
Theorem responseUpdates_settle_once (events late : list QueryEvent) :
  outcome (responseUpdates_run events) <> Pending ->
  outcome (responseUpdates_run (events ++ late)) = outcome (responseUpdates_run events).
Proof.
  intros Hset. unfold responseUpdates_run in *. rewrite fold_left_app.
  by apply run_settled.
Qed.

(** X7. [TestResponseUpdates] settles whenever the query does, and only a
    fulfilled query can make it succeed: frames alone, or frames and a
    rejection of the query, never do. *)
Theorem responseUpdates_settle_with_the_query (w : K) :
  let events :=
    (kernel.connectModule kernelTestSuite (JStr "testResponseUpdate") (JObj []) w).1 in
  (has_terminal events = true -> is_settled (TestResponseUpdates w).1 = true) /\
  (is_fulfilled (TestResponseUpdates w).1 = true ->
   exists d, QueryFulfilled d ∈ events).
Proof.
  intros events. subst events. unfold TestResponseUpdates.
  destruct (kernel.connectModule _ _ _ w) as [events w']. cbn [fst].
  unfold responseUpdates_run. split.
  - intros Hterm. pose proof (run_has_terminal events _ start_open Hterm) as H.
    by destruct (outcome _).
  - intros Hful.
    destruct (existsb (fun ev => match ev with
                                 | QueryFulfilled _ => true
                                 | _ => false
                                 end) events) eqn:E.
    + apply existsb_exists in E as ([d|d|e] & Hin & Hd); try discriminate.
      exists d. by apply list_elem_of_In.
    + rewrite run_not_fulfilled in Hful; [done|done|].
      intros d Hin. apply list_elem_of_In in Hin.
      assert (Hex : existsb (fun ev => match ev with
                                       | QueryFulfilled _ => true
                                       | _ => false
                                       end) events = true).
      { apply existsb_exists. by exists (QueryFulfilled d). }
      congruence.
Qed.

(** X8. When the query is rejected while [TestResponseUpdates] is still
    pending, the test is rejected with the reason of the kernel put in
    context by [addContextToErr], whatever frames came before and whatever
    comes after. *)
Theorem responseUpdates_rejection_in_context (w : K) (pre late : list QueryEvent)
    (err : JsVal) :
  (kernel.connectModule kernelTestSuite (JStr "testResponseUpdate") (JObj []) w).1
    = pre ++ QueryRejected err :: late ->
  outcome (responseUpdates_run pre) = Pending ->
  (TestResponseUpdates w).1
    = Rejected (kernel.addContextToErr err "testResponseUpdate failed").
Proof.
  intros Hev Hpend. unfold TestResponseUpdates.
  destruct (kernel.connectModule _ _ _ w) as [events w']. cbn [fst] in *. subst events.
  unfold responseUpdates_run in *. rewrite fold_left_app. cbn [fold_left].
  set (st := fold_left on_event pre responseUpdates_start) in *.
  assert (Hopen : query_settled st = false) by (by apply (run_open pre _ start_open)).
  assert (Hnow : outcome (on_event st (QueryRejected err))
                 = Rejected (kernel.addContextToErr err "testResponseUpdate failed")).
  { cbn. rewrite Hopen. unfold close_query, settle_once. rewrite Hpend. done. }
  rewrite run_settled; [done|]. by rewrite Hnow.
Qed.

(** *** The sequential messages, for any number of them *)

Lemma send_fulfilled_only_if (n : nat) (w : K) :
  is_fulfilled (sendSequentialMessages n w).1 = true ->
  forall i, i < n -> is_fulfilled (kernel.testMessage (after_messages i w)).1 = true.
Proof.
  revert w. induction n as [|n IH]; intros w Hful i Hi; [lia|].
  cbn [sendSequentialMessages] in Hful.
  destruct (kernel.testMessage w) as [p w'] eqn:Em.
  destruct p; [|discriminate..].
  destruct i as [|i]; [cbn; by rewrite Em|].
  rewrite after_messages_shift, Em. apply IH; [done|lia].
Qed.

Lemma send_counted (n : nat) (w : K) (c : nat) :
  exists m, m <= n /\
    (@sendSequentialMessages _ (counting k) n (w, c)).2 = (after_messages m w, c + m).
Proof.
  revert w c. induction n as [|n IH]; intros w c.
  - exists 0. cbn. by rewrite Nat.add_0_r.
  - cbn [sendSequentialMessages]. rewrite counting_message.
    destruct (kernel.testMessage w) as [p w'] eqn:Em. cbn [fst snd].
    destruct p.
    + destruct (IH w' (S c)) as (m & Hm & Heq). exists (S m). split; [lia|].
      rewrite Heq, after_messages_shift, Em. cbn. f_equal. lia.
    + exists 1. split; [lia|]. cbn. rewrite Em. cbn. f_equal. lia.
    + exists 1. split; [lia|]. cbn. rewrite Em. cbn. f_equal. lia.
Qed.

(** X9. For any number [n] of messages, [sendSequentialMessages] resolves
    exactly when each of the [n] messages, sent on the session the one
    before it left, is fulfilled; and whatever the kernel answers it never
    sends more than [n] messages. *)
Theorem sequential_messages_resolve_iff_all_fulfilled (n : nat) (w : K) :
  (is_fulfilled (sendSequentialMessages n w).1 = true <->
   forall i, i < n -> is_fulfilled (kernel.testMessage (after_messages i w)).1 = true) /\
  (exists m, m <= n /\
     (@sendSequentialMessages _ (counting k) n (w, 0)).2 = (after_messages m w, m)).
Proof.
  split.
  - split; [apply send_fulfilled_only_if|].
    intros Hall. by rewrite send_all.
  - apply (send_counted n w 0).
Qed.

(** The first message that never settles leaves the test pending. *)
Lemma send_hangs (n i : nat) (w : K) :
  i < n ->
  (forall j, j < i -> is_fulfilled (kernel.testMessage (after_messages j w)).1 = true) ->
  (kernel.testMessage (after_messages i w)).1 = Pending ->
  sendSequentialMessages n w = (Pending, after_messages (S i) w).
Proof.
  revert i w. induction n as [|n IH]; intros i w Hi Hall Hpend; [lia|].
  cbn [sendSequentialMessages]. destruct i as [|i].
  - cbn in *. destruct (kernel.testMessage w) as [p w']. cbn in *. by subst p.
  - pose proof (Hall 0 ltac:(lia)) as H0. cbn in H0.
    rewrite (after_messages_shift _ (S i)).
    rewrite after_messages_shift in Hpend.
    destruct (kernel.testMessage w) as [p w'] eqn:Em. cbn in *.
    destruct p; try discriminate. apply IH; [lia| |done]. intros j Hj.
    specialize (Hall (S j) ltac:(lia)). by rewrite after_messages_shift, Em in Hall.
Qed.

Lemma send_settled (n : nat) (w : K) :
  (forall w', is_settled (kernel.testMessage w').1 = true) ->
  is_settled (sendSequentialMessages n w).1 = true.
Proof.
  intros Hall. revert w. induction n as [|n IH]; intros w; [done|].
  cbn [sendSequentialMessages]. specialize (Hall w).
  destruct (kernel.testMessage w) as [[v|e|] w']; [apply IH|done|done].
Qed.

End Settling.

Section Hanging.

Context {K : Type} (k : kernel.Kernel K).

(** X10. A test message that never settles hangs [TestMsgSpeedSequential5k]:
    when the [i]-th message is the first that is not fulfilled and it stays
    pending, the test stays pending, and [i] messages have been sent, not
    one more. *)
Theorem sequential_5k_hangs_on_pending_message (w : K) (i : nat) :
  1 <= i <= 5000 ->
  (forall j, j < i - 1 ->
     is_fulfilled (kernel.testMessage (after_messages j w)).1 = true) ->
  (kernel.testMessage (after_messages (i - 1) w)).1 = Pending ->
  TestMsgSpeedSequential5k w = (Pending, after_messages i w) /\
  @TestMsgSpeedSequential5k _ (counting k) (w, 0) = (Pending, (after_messages i w, i)).
Proof.
  intros Hi Hall Hpend. unfold TestMsgSpeedSequential5k.
  destruct i as [|i]; [lia|]. replace (S i - 1) with i in * by lia. split.
  - apply send_hangs; [lia|done..].
  - rewrite (send_hangs _ i), counting_after; [done|lia| |].
    + intros j Hj. rewrite counting_fate. by apply Hall.
    + by rewrite counting_fate.
Qed.

End Hanging.

(** ** The tests of single calls, once more *)

Section MoreCalls.

Context {K : Type} {k : kernel.Kernel K} {page : window.Browser}.

(** X11. [TestIgnoreResponseUpdates], which uses [callModule] on the method
    that sends response updates, succeeds exactly when the answer carries
    the number 100 as [eventProgress]; a rejection of the call is handed on
    as it is. *)
Theorem ignoring_updates_needs_progress_100 (w : K) :
  let call :=
    kernel.callModule kernelTestSuite (JStr "testResponseUpdate") (JObj []) w in
  (is_fulfilled (TestIgnoreResponseUpdates w).1 = true <->
   exists data, call.1 = Fulfilled data /\ eventProgress data = Some 100%Z) /\
  (is_fulfilled (TestIgnoreResponseUpdates w).1 = true ->
   (TestIgnoreResponseUpdates w).1 = Fulfilled (JStr
      "received final message when calling testResponseUpdate using callModule")) /\
  (forall err, call.1 = Rejected err -> (TestIgnoreResponseUpdates w).1 = Rejected err).
Proof.
  intros call. subst call. unfold TestIgnoreResponseUpdates, promise_of.
  destruct (kernel.callModule _ _ _ w) as [[data|err|] w']; cbn [fst snd then_catch].
  2: { split; [|split]; [split; [discriminate|by intros (? & ? & _)]|discriminate|].
       by intros ? [= ->]. }
  2: { split; [|split]; [split; [discriminate|by intros (? & ? & _)]|discriminate|done]. }
  split; [|split; [|done]].
  - destruct (is_object data) eqn:Hobj; cycle 1.
    { destruct (not_object_throws data Hobj) as [e He]. rewrite He. cbn.
      split; [discriminate|]. intros (d & [= <-] & Hd).
      apply eventProgress_in in Hd as (Hd & _). congruence. }
    destruct (object_in data Hobj) as [b Hin]. rewrite Hin. cbn.
    destruct b; cbn; cycle 1.
    { split; [discriminate|]. intros (d & [= <-] & Hd).
      apply in_false_no_progress in Hin. congruence. }
    destruct (object_get data Hobj) as [v Hget]. rewrite Hget. cbn.
    destruct (strict_eq_num v 100) eqn:E; cbn.
    + split; [intros _|done]. exists data. split; [done|].
      by apply (strict_eq_num_progress data v _ Hget).
    + split; [discriminate|]. intros (d & [= <-] & Hd).
      apply (strict_eq_num_progress data v _ Hget) in Hd. congruence.
  - destruct (js_in "eventProgress" data) as [[|]|e]; cbn; try discriminate.
    destruct (js_get "eventProgress" data) as [v|e]; cbn; try discriminate.
    destruct (strict_eq_num v 100); cbn; [done|discriminate].
Qed.

(** X12. [TestMethodFieldRequired] calls the test module with [null] for a
    method; it succeeds exactly when the kernel rejects the call, with the
    reason of the kernel in its result, and fails when the call is
    fulfilled, whatever the answer. *)
Theorem call_without_method_must_reject (w : K) :
  let call := kernel.callModule kernelTestSuite JNull (JObj []) w in
  TestMethodFieldRequired w =
    (match call.1 with
     | Rejected err =>
         Fulfilled (js_concat "kernel failed when there was a call with no method: " err)
     | Fulfilled _ =>
         Rejected (JStr "expecting a call to the kernel with no method to fail")
     | Pending => Pending
     end, call.2) /\
  (is_fulfilled (TestMethodFieldRequired w).1 = true <-> exists err, call.1 = Rejected err).
Proof.
  intros call. subst call. unfold TestMethodFieldRequired, promise_of.
  destruct (kernel.callModule _ _ _ w) as [[data|err|] w']; cbn.
  - split; [done|]. split; [discriminate|]. by intros [? ?].
  - split; [done|]. split; [eauto|done].
  - split; [done|]. split; [discriminate|]. by intros [? ?].
Qed.

(** X13. The two tests that ask a module for its errors succeed exactly
    when the answer has an [errors] whose [length] is 0; for an array of
    errors, exactly when the array is empty, and a module that has
    accumulated errors makes the test fail with these errors in the
    reason. *)
Theorem no_errors_means_length_0 (module who : string) (w : K) :
  let call := kernel.callModule module (JStr "viewErrors") (JObj []) w in
  (is_fulfilled (viewErrors module who w).1 = true <->
   exists data errors,
     call.1 = Fulfilled data /\
     js_in "errors" data = Normal true /\
     js_get "errors" data = Normal errors /\
     js_get "length" errors = Normal (JNum 0)) /\
  (forall xs, call.1 = Fulfilled (JObj [("errors", JArr xs)]) ->
     (viewErrors module who w).1 =
       match xs with
       | [] => Fulfilled (JStr (who ++ " module did not accumulate any errors"))
       | _ :: _ => Rejected (JStr (who ++ " module has acculumated errors: "
                                   ++ window.JSON_stringify (JArr xs)))
       end) /\
  TestModuleHasErrors = viewErrors kernelTestSuite "test" /\
  TestHelperModuleHasErrors = viewErrors helperModule "helper".
Proof.
  intros call. subst call. unfold viewErrors at 1 2, promise_of.
  destruct (kernel.callModule _ _ _ w) as [[data|err|] w']; cbn [fst snd then_catch].
  2,3: split; [split; [discriminate|by intros (? & ? & ? & _)]|];
       split; [by intros ? [=]|done].
  split; [|split; [|done]].
  - destruct (js_in "errors" data) as [[|]|e] eqn:Ein; cbn.
    2,3: split; [discriminate|]; intros (? & ? & [= <-] & ? & _); congruence.
    destruct (js_get "errors" data) as [errors|e] eqn:Eerr; cbn.
    2: split; [discriminate|]; intros (? & ? & [= <-] & _ & ? & _); congruence.
    destruct (js_get "length" errors) as [len|e] eqn:Elen; cbn.
    2: { split; [discriminate|]. intros (? & ? & [= <-] & _ & He & Hl). congruence. }
    destruct (strict_eq_num len 0) eqn:Es; cbn.
    + apply strict_eq_num_true in Es as ->. split; [intros _|done].
      by exists data, errors.
    + split; [discriminate|]. intros (? & ? & [= <-] & _ & He & Hl).
      rewrite Eerr in He. injection He as <-. rewrite Elen in Hl. injection Hl as ->.
      cbn in Es. discriminate.
  - intros xs [= ->]. by destruct xs.
Qed.

(** X14. [TestBasicCORS] succeeds exactly when the answer has a [url] that
    is a string, and names that url in its result.  When the [url] is of
    another type the reason of the failure names the type of
    [data.domain], not that of the [url]. *)
Theorem cors_needs_a_string_url (w : K) :
  let call := kernel.callModule kernelTestSuite (JStr "testCORS") (JObj []) w in
  (forall v,
     (TestBasicCORS w).1 = Fulfilled v <->
     exists data url,
       call.1 = Fulfilled data /\
       js_in "url" data = Normal true /\
       js_get "url" data = Normal (JStr url) /\
       v = JStr ("CORS test passed for url: " ++ url)) /\
  (forall data url domain,
     call.1 = Fulfilled data ->
     js_in "url" data = Normal true ->
     js_get "url" data = Normal url ->
     typeof url <> "string" ->
     js_get "domain" data = Normal domain ->
     (TestBasicCORS w).1 =
       Rejected (JStr ("testCORS returned wrong type: " ++ typeof domain))).
Proof.
  intros call. subst call. unfold TestBasicCORS, promise_of.
  destruct (kernel.callModule _ _ _ w) as [[data|err|] w']; cbn [fst snd then_catch].
  2,3: split; [intros v; split; [discriminate|by intros (? & ? & ? & _)]|];
       by intros ? ? ? [=].
  split.
  - intros v. destruct (js_in "url" data) as [[|]|e] eqn:Ein; cbn.
    2,3: split; [discriminate|]; intros (? & ? & [= <-] & ? & _); congruence.
    destruct (js_get "url" data) as [url|e] eqn:Eurl; cbn.
    2: split; [discriminate|]; intros (? & ? & [= <-] & _ & ? & _); congruence.
    destruct url; cbn;
      try (split; [destruct (js_get "domain" data); discriminate|];
           intros (? & ? & [= <-] & _ & ? & _); congruence).
    split.
    + intros [= <-]. by exists data, s.
    + intros (d & u & [= <-] & _ & Hu & ->). rewrite Eurl in Hu. by injection Hu as <-.
  - intros d url domain [= <-] Hin Hurl Htype Hdom. rewrite Hin. cbn.
    rewrite Hurl. cbn. destruct (String.eqb_spec (typeof url) "string") as [|_]; [done|].
    cbn. rewrite Hdom. done.
Qed.

(** X15. The tests that hand on a value of the answer
    ([TestModuleQueryKernel] the [kernelVersion], [TestModuleCheckHelperSeed]
    and [TestViewTesterSeedByHelper] the [message]) succeed exactly when the
    answer has that key, with the value found under it, whatever it is; a
    rejection of the call comes back with "callModule failed: " put before
    its reason. *)
Theorem value_tests_hand_on_the_value (method : string) (w : K) :
  let asked := kernel.callModule kernelTestSuite (JStr method) (JObj []) w in
  let version := kernel.callModule kernelTestSuite (JStr "sendTestToKernel") (JObj []) w in
  (forall v,
     (message_of method w).1 = Fulfilled v <->
     exists data, asked.1 = Fulfilled data /\
       js_in "message" data = Normal true /\ js_get "message" data = Normal v) /\
  (forall err, asked.1 = Rejected err ->
     (message_of method w).1 = Rejected (js_concat "callModule failed: " err)) /\
  (forall v,
     (TestModuleQueryKernel w).1 = Fulfilled v <->
     exists data, version.1 = Fulfilled data /\
       js_in "kernelVersion" data = Normal true /\
       js_get "kernelVersion" data = Normal v) /\
  (forall err, version.1 = Rejected err ->
     (TestModuleQueryKernel w).1 = Rejected (js_concat "callModule failed: " err)) /\
  TestModuleCheckHelperSeed = message_of "viewHelperSeed" /\
  TestViewTesterSeedByHelper = message_of "viewOwnSeedThroughHelper".
Proof.
  intros asked version. subst asked version.
  assert (Hkey : forall key (p : Promise) (missing : string) v,
    then_catch p
      (fun data =>
         let* has := js_in key data in
         if negb has then Normal (Reject (JStr missing))
         else let* value := js_get key data in Normal (Resolve value))
      (fun err => Reject (js_concat "callModule failed: " err)) = Fulfilled v <->
    exists data, p = Fulfilled data /\
      js_in key data = Normal true /\ js_get key data = Normal v).
  { intros key p missing v. destruct p as [data|err|]; cbn.
    2,3: split; [discriminate|by intros (? & ? & _)].
    destruct (js_in key data) as [[|]|e] eqn:Ein; cbn.
    2,3: split; [discriminate|]; intros (? & [= <-] & ? & _); congruence.
    destruct (js_get key data) as [value|e] eqn:Eget; cbn.
    - split; [intros [= <-]; by exists data|].
      intros (? & [= <-] & _ & ?). congruence.
    - split; [discriminate|]. intros (? & [= <-] & _ & ?). congruence. }
  unfold message_of, TestModuleQueryKernel, promise_of.
  destruct (kernel.callModule kernelTestSuite (JStr method) _ w) as [p1 w1].
  destruct (kernel.callModule kernelTestSuite (JStr "sendTestToKernel") _ w) as [p2 w2].
  cbn [fst snd]. repeat split; try apply Hkey; try (by intros err ->).
Qed.

End MoreCalls.

(** ** The failures of the upload and download check *)

Section UploadFailures.

Context {K : Type} {k : kernel.Kernel K} {page : window.Browser}.

Lemma js_index_total (v len : JsVal) (i : nat) :
  js_get "length" v = Normal len -> exists x, js_index v i = Normal x.
Proof. destruct v; cbn; try discriminate; eauto. Qed.

Lemma differs_from_total (rest : list byte) (i : nat) (fileDataDown len : JsVal) :
  js_get "length" fileDataDown = Normal len ->
  exists b, differs_from rest i fileDataDown = Normal b.
Proof.
  intros Hlen. revert i. induction rest as [|b rest IH]; intros i; cbn; [eauto|].
  destruct (js_index_total fileDataDown len i Hlen) as [x ->]. cbn.
  destruct (negb _); [eauto|apply IH].
Qed.

Lemma js_get_throws (key : string) (v e : JsVal) :
  js_get key v = Throw e ->
  (v = JUndefined \/ v = JNull) /\ exists message, e = JError "TypeError" message.
Proof. destruct v; cbn; try discriminate; intros [= <-]; eauto. Qed.

(** X16. How the upload and download check fails.  A rejected upload
    rejects the check with its reason and nothing is downloaded; a rejected
    download rejects it with its reason; and a download that is fulfilled
    either passes the check, or fails it with the message that shows both
    byte sequences, or, when the downloaded value is [undefined] or [null],
    with the [TypeError] that reading its length throws, whatever its
    message. *)
Theorem upload_download_failures (name : string) (fileDataUp : list byte) (w : K) :
  let uploaded := kernel.upload name fileDataUp w in
  (forall err, uploaded.1 = Rejected err ->
     uploadAndDownload name fileDataUp w = (Rejected err, uploaded.2)) /\
  (uploaded.1 = Pending ->
     uploadAndDownload name fileDataUp w = (Pending, uploaded.2)) /\
  (forall skylink, uploaded.1 = Fulfilled skylink ->
     let downloaded := kernel.download skylink uploaded.2 in
     (uploadAndDownload name fileDataUp w).2 = downloaded.2 /\
     (forall err, downloaded.1 = Rejected err ->
        (uploadAndDownload name fileDataUp w).1 = Rejected err) /\
     (forall fileDataDown, downloaded.1 = Fulfilled fileDataDown ->
        (uploadAndDownload name fileDataUp w).1 = Fulfilled skylink \/
        (uploadAndDownload name fileDataUp w).1
          = Rejected (mismatch_message fileDataUp fileDataDown) \/
        ((fileDataDown = JUndefined \/ fileDataDown = JNull) /\
         exists message,
           (uploadAndDownload name fileDataUp w).1
             = Rejected (JError "TypeError" message)))).
Proof.
  intros uploaded. subst uploaded. unfold uploadAndDownload, promise_of.
  destruct (kernel.upload name fileDataUp w) as [[link|e|] w1]; cbn [fst snd].
  2: { split; [by intros ? [= ->]|]. split; [done|]. by intros ? [=]. }
  2: { split; [by intros ? [=]|]. split; [done|]. by intros ? [=]. }
  split; [by intros ? [=]|]. split; [done|]. intros skylink [= ->].
  destruct (kernel.download skylink w1) as [[down|e|] w2]; cbn [fst snd then_catch].
  2,3: split; [done|]; split; [by intros ? [= ->]|by intros ? [=]].
  split; [done|]. split; [by intros ? [=]|]. intros fileDataDown [= <-].
  unfold download_then.
  destruct (js_get "length" down) as [len|e] eqn:El; cbn.
  - destruct (negb _); cbn; [auto|].
    destruct (differs_from_total fileDataUp 0 down len El) as [b ->]. cbn.
    destruct b; cbn; auto.
  - apply js_get_throws in El as [Hd [message ->]]. eauto.
Qed.

End UploadFailures.

(** ** A kernel that answers never stalls the page *)

Section Responsive.

Context {K : Type} {k : kernel.Kernel K} {page : window.Browser}.

Lemma in_sequence_Forall (P : Promise -> Prop) (l : list (@TestCardValue K)) :
  Forall (fun c => forall w, P (test c w).1) l ->
  forall w, Forall P (in_sequence l w).1.
Proof.
  induction 1 as [|c l Hc _ IH]; intros w; cbn; [constructor|].
  specialize (Hc w). destruct (test c w) as [p w']. specialize (IH w').
  destruct (in_sequence l w') as [ps w'']. cbn in *. by constructor.
Qed.

Lemma uploadAndDownload_settled (name : string) (bytes : list byte) (w : K) :
  responsive k -> is_settled (uploadAndDownload name bytes w).1 = true.
Proof.
  intros (_ & _ & _ & _ & Hup & Hdown). unfold uploadAndDownload.
  specialize (Hup name bytes w).
  destruct (kernel.upload name bytes w) as [[link|e|] w1]; [|done|done].
  rewrite promise_of_settled. apply Hdown.
Qed.

Lemma responseUpdates_settled (w : K) :
  responsive k -> is_settled (TestResponseUpdates w).1 = true.
Proof.
  intros (_ & _ & _ & Hconn & _). unfold TestResponseUpdates.
  specialize (Hconn kernelTestSuite (JStr "testResponseUpdate") (JObj []) w).
  destruct (kernel.connectModule _ _ _ w) as [events w']. cbn [fst] in *.
  pose proof (run_has_terminal events _ start_open Hconn) as H.
  unfold responseUpdates_run. by destruct (outcome _).
Qed.

(** Every test of the page settles when the kernel answers. *)
Lemma tests_settle :
  responsive k ->
  Forall (fun c => forall w, is_settled (test c w).1 = true) testCardValues.
Proof.
  intros Hk. pose proof Hk as (Hinit & Hmsg & Hcall & _).
  unfold testCardValues.
  repeat apply Forall_cons_2; [..|apply Forall_nil_2]; intros w; cbn [test];
    first
      [ apply Hinit
      | apply Hmsg
      | by apply responseUpdates_settled
      | by apply uploadAndDownload_settled
      | by apply send_settled
      | unfold TestModuleHasSeed, TestModuleLogging, TestMissingModule,
          TestMalformedModule, TestModulePresentSeed, presentSeed,
          TestModuleQueryKernel, TestModuleCheckHelperSeed,
          TestViewTesterSeedByHelper, message_of, TestMirrorDomain,
          TestMethodFieldRequired, TestModuleUpdateQuery, TestIgnoreResponseUpdates,
          TestBasicCORS, TestModuleSpeedSequential20k, TestModuleSpeedParallel20k,
          TestModuleHasErrors, TestHelperModuleHasErrors, viewErrors;
        rewrite promise_of_settled; apply Hcall ].
Qed.

(** X17. Against a kernel that answers every call the page never stalls:
    from any session, after at most 22 settlements nothing is in flight
    and nothing more can settle.  Either the page is still mounted, the
    turn is 22, there are 22 outcomes and every card shows a result, the
    success of its test or a reason that can be rendered; or the page was
    unmounted at the turn of a test that was rejected with a reason that
    cannot be rendered, with one outcome for that test and one for each
    test before it. *)
Theorem responsive_kernel_never_stalls (w : K) :
  responsive k ->
  let final := run testCardValues 22 (mount testCardValues w) in
  running final = [] /\
  next testCardValues final = None /\
  (mounted final = true ->
     queueTurn final = 22 /\
     length (outcomes (history final)) = 22 /\
     forall i, i < 22 ->
       exists x, cards final !! i = Some (card_success x) \/
                 (renderable x = true /\ cards final !! i = Some (card_failure x))) /\
  (mounted final = false ->
     queueTurn final < 22 /\
     cards final = [] /\
     length (outcomes (history final)) = S (queueTurn final) /\
     exists x, renderable x = false /\
               (in_sequence testCardValues w).1 !! queueTurn final = Some (Rejected x)).
Proof.
  intros Hk final.
  pose proof (in_sequence_Forall (fun p => is_settled p = true) _ (tests_settle Hk) w)
    as Hall.
  assert (Hreach : reachable testCardValues w final)
    by (apply run_reachable; constructor).
  pose proof (reachable_inv testCardValues w final Hreach) as Hinv.
  assert (Hnone : running final = []).
  { apply (run_to_rest testCardValues w); [done|apply mount_inv|].
    rewrite mount_turn. cbn. lia. }
  destruct (queue_inv_outcomes testCardValues w final Hinv) as [Hcount _].
  split; [done|]. split; [unfold next; by rewrite Hnone|]. split.
  - intros Hm. rewrite Hm in Hcount.
    assert (Hturn : queueTurn final = 22).
    { destruct (in_sequence (take (queueTurn final) testCardValues) w) as [ps w'] eqn:Eseq.
      destruct (queue_inv_length testCardValues w final ps w' Hinv Eseq) as [Hle _].
      change (length testCardValues) with 22 in Hle.
      destruct (decide (queueTurn final < 22)) as [Hlt|]; [|lia].
      destruct (queue_inv_in_flight testCardValues w final Hinv Hm) as [r Er]; [done|].
      by rewrite Hnone in Er. }
    split; [done|]. split; [by rewrite Hcount|]. intros i Hi.
    rewrite (reachable_cards testCardValues w final i Hreach Hm) by (cbn; lia).
    rewrite Hturn. rewrite decide_True by done.
    pose proof (in_sequence_length testCardValues w) as Hl.
    destruct ((in_sequence testCardValues w).1 !! i) as [p|] eqn:Ep; cycle 1.
    { apply lookup_ge_None in Ep. rewrite Hl in Ep. cbn in Ep. lia. }
    assert (Hd : displayable p = true).
    { apply (queue_inv_shown testCardValues w final i p Hinv); [lia|done]. }
    cbn. destruct p as [x|x|]; [exists x; by left|exists x; by right|done].
  - intros Hm. rewrite Hm in Hcount.
    destruct (unmounted_at_rejection testCardValues w final Hinv Hm)
      as (Hq & Hc & _ & Hx).
    done.
Qed.

End Responsive.

(** ** The page against the stand-in kernels, once more *)

Lemma faithful_responsive : responsive (mock.kernel_of mock.faithful).
Proof.
  repeat split.
  - intros target method data w. cbn. unfold mock.callModule, mock.answer. cbn.
    repeat case_match; reflexivity.
  - intros target method data w. cbn. unfold mock.connectModule. cbn.
    repeat case_match; reflexivity.
  - intros skylink w. cbn. unfold mock.download. cbn. repeat case_match; reflexivity.
Qed.

(** On the kernel that answers [viewSeed] with a seed that is [null] the
    page is unmounted at the third test: three outcomes, no card. *)
Lemma turn_counts_settled_tests_witness :
  let registry := variant.seedless_cards in
  let s := run registry 22 (mount registry mock.start) in
  reachable registry mock.start s /\
  mounted s = false /\
  queueTurn s < length registry /\
  cards s = [] /\
  length (outcomes (history s)) = S (queueTurn s).
Proof.
  intros registry s.
  assert (H : reachable registry mock.start s) by (apply run_reachable; constructor).
  assert (Hm : mounted s = false) by (vm_compute; reflexivity).
  split; [exact H|]. split; [exact Hm|].
  destruct (turn_counts_settled_tests registry mock.start s H) as (_ & _ & _ & Hgone).
  destruct (Hgone Hm) as (Hq & Hc & _ & Hlen & _).
  split; [exact Hq|]. split; [exact Hc|exact Hlen].
Defined.

(** After five settlements on the faithful stand-in card 5 is running and
    card 6 still waiting. *)
Lemma cards_show_the_queue_witness :
  let registry := mock.cards mock.faithful in
  let s := run registry 5 (mount registry mock.start) in
  reachable registry mock.start s /\ mounted s = true /\
  5 < length registry /\ 6 < length registry /\
  cards s !! 5 = Some card_running /\
  cards s !! 6 = Some card_waiting.
Proof.
  intros registry s.
  assert (H : reachable registry mock.start s) by (apply run_reachable; constructor).
  assert (Hm : mounted s = true) by (vm_compute; reflexivity).
  assert (H5 : 5 < length registry) by (vm_compute; lia).
  assert (H6 : 6 < length registry) by (vm_compute; lia).
  split; [exact H|]. split; [exact Hm|]. split; [exact H5|]. split; [exact H6|]. split.
  - destruct (cards_show_the_queue registry mock.start s 5 H Hm H5) as (_ & Hrun & _).
    apply Hrun. reflexivity.
  - destruct (cards_show_the_queue registry mock.start s 6 H Hm H6) as (_ & _ & Hwait).
    apply Hwait. vm_compute. lia.
Defined.

(** Behind the silent bridge the second test never settles: the turn
    stays at 1. *)
Lemma pending_test_stalls_the_queue_witness :
  let registry := @testCardValues unit silent mock.page in
  let s := run registry 5 (mount registry tt) in
  (in_sequence registry tt).1 !! 1 = Some Pending /\
  reachable registry tt s /\
  queueTurn s <= 1 /\
  Started 2 ∉ history s.
Proof.
  intros registry s.
  assert (Hp : (in_sequence registry tt).1 !! 1 = Some Pending) by reflexivity.
  assert (H : reachable registry tt s) by (apply run_reachable; constructor).
  split; [exact Hp|]. split; [exact H|].
  destruct (pending_test_stalls_the_queue registry tt 1 s Hp H) as (Hle & Hno & _).
  split; [exact Hle|]. apply Hno. lia.
Defined.

Lemma queue_stops_at_first_pending_witness :
  let registry := @testCardValues unit silent mock.page in
  let s := run registry 5 (mount registry tt) in
  (in_sequence registry tt).1 !! 1 = Some Pending /\
  queueTurn s = 1 /\
  cards s !! 1 = Some card_running.
Proof.
  intros registry s.
  assert (Hp : (in_sequence registry tt).1 !! 1 = Some Pending) by reflexivity.
  split; [exact Hp|].
  assert (Hall : forall j p, j < 1 -> (in_sequence registry tt).1 !! j = Some p ->
                             displayable p = true).
  { intros j p Hj. destruct j as [|j]; [|lia]. intros [= <-]. reflexivity. }
  destruct (queue_stops_at_first_pending registry tt 1 5 Hp Hall ltac:(lia))
    as (_ & _ & Hturn & _ & _ & _ & Hcard).
  split; [exact Hturn|exact Hcard].
Defined.

(** The response came after the first frame: the frames and the response
    that follow change nothing. *)
Lemma responseUpdates_settle_once_witness :
  let early := [ResponseUpdate (mock.frame 25); QueryFulfilled (mock.frame 100)] in
  let late := [ResponseUpdate (mock.frame 50); ResponseUpdate (mock.frame 75);
               QueryFulfilled (mock.frame 100)] in
  outcome (responseUpdates_run (k := mock.kernel_of mock.faithful) early) <> Pending /\
  outcome (responseUpdates_run (k := mock.kernel_of mock.faithful) (early ++ late)) =
  Rejected (JStr "response was received before responseUpdates were completed").
Proof.
  intros early late.
  assert (H : outcome (responseUpdates_run (k := mock.kernel_of mock.faithful) early)
              <> Pending) by discriminate.
  split; [exact H|].
  rewrite (responseUpdates_settle_once (k := mock.kernel_of mock.faithful) early late H).
  reflexivity.
Defined.

(** Without the bridge the query is rejected at once. *)
Lemma responseUpdates_rejection_in_context_witness :
  (@TestResponseUpdates _ (mock.kernel_of mock.unplugged) mock.start).1
  = Rejected (JStr "testResponseUpdate failed: bridge unavailable").
Proof.
  exact (responseUpdates_rejection_in_context (k := mock.kernel_of mock.unplugged)
           mock.start [] [] mock.no_bridge eq_refl eq_refl).
Defined.

(** Behind the silent bridge the first of the 5000 messages hangs. *)
Lemma sequential_5k_hangs_on_pending_message_witness :
  1 <= 1 <= 5000 /\
  @TestMsgSpeedSequential5k _ (counting silent) (tt, 0) = (Pending, (tt, 1)).
Proof.
  split; [lia|].
  refine (proj2 (sequential_5k_hangs_on_pending_message silent tt 1 _ _ _)).
  - lia.
  - intros j Hj. cbn in Hj. lia.
  - reflexivity.
Defined.

(** The faithful stand-in answers every call: the page runs to its end. *)
Lemma responsive_kernel_never_stalls_witness :
  let final := run (mock.cards mock.faithful) 22 (mount (mock.cards mock.faithful) mock.start) in
  responsive (mock.kernel_of mock.faithful) /\
  mounted final = true /\
  running final = [] /\
  queueTurn final = 22.
Proof.
  intros final.
  assert (Hm : mounted final = true) by (vm_compute; reflexivity).
  split; [exact faithful_responsive|]. split; [exact Hm|].
  destruct (responsive_kernel_never_stalls (k := mock.kernel_of mock.faithful)
              (page := mock.page) mock.start faithful_responsive)
    as (Hrun & _ & Hend & _).
  split; [exact Hrun|]. exact (proj1 (Hend Hm)).
Defined.

(** On the faithful stand-in the 22 tests of the page run to the end. *)
Lemma tests_start_in_order_and_end_when_shown_witness :
  let cards := mock.cards mock.faithful in
  Forall (fun p => displayable p = true) (in_sequence cards mock.start).1 /\
  queueTurn (run cards 22 (mount cards mock.start)) = 22 /\
  length (outcomes (history (run cards 22 (mount cards mock.start)))) = 22.
Proof.
  intros cards.
  assert (H : Forall (fun p => displayable p = true) (in_sequence cards mock.start).1)
    by (vm_compute; repeat constructor).
  split; [exact H|].
  destruct (proj2 (tests_start_in_order_and_end_when_shown cards mock.start) H)
    as (_ & _ & Hturn & _ & _ & _ & _ & _ & Hlen & _).
  split; [exact Hturn|exact Hlen].
Defined.

(** Without the bridge the first test is rejected with a string, and the
    turn moves on to the second test. *)
Lemma queue_turn_advances_when_shown_witness :
  let cards := mock.cards mock.unplugged in
  reachable cards mock.start (mount cards mock.start) /\
  exists s',
    step cards (mount cards mock.start) s' /\
    mounted s' = true /\
    queueTurn s' = 1 /\
    exists r', running s' = [r'] /\ run_spot r' = 1.
Proof.
  intros cards.
  assert (H : reachable cards mock.start (mount cards mock.start)) by constructor.
  split; [exact H|].
  destruct (queue_turn_advances_when_shown cards mock.start _ H)
    as (_ & _ & _ & _ & Hgo & _).
  destruct (Hgo {| run_spot := 0; run_turn := 0; fate := Rejected mock.no_bridge |}
              eq_refl eq_refl)
    as (s' & Hstep & Hm & Hturn & Hnext).
  exists s'. split; [exact Hstep|]. split; [exact Hm|]. split; [exact Hturn|].
  apply Hnext. vm_compute. lia.
Defined.
